(** * cloudfront_short_url.generator

    A shallow embedding of [src/cloudfront_short_url/generator.py]: the
    cached-property helpers, the [Settings] dataclass and the [ShortUrl]
    class with its collision-avoidance loop, followed by the properties the
    specification states about them.

    Python objects are modelled as records; every method is a function in
    a state-and-exception monad over the receiver [self] and the rest of
    the process (class attributes, the system random source, the remote
    object store and a log of the calls issued to boto3). *)

From Stdlib Require Import ZArith Ascii String List Lia.
From stdpp Require Import base option strings gmap list.

Local Open Scope Z_scope.
Local Open Scope string_scope.
Local Open Scope list_scope.

(** ** Exceptions and results *)

(** The exceptions that can travel through this module.  [ClientError]
    is [botocore.exceptions.ClientError], carrying
    [exc.response["Error"]["Code"]]; [BotoCoreError] stands for the
    botocore exceptions outside the [ClientError] hierarchy (connection
    failures, timeouts), named by their class. *)
Inductive Exception : Type :=
| ClientError (code : string)
| BotoCoreError (name : string)
| AttributeError (name : string)
| IndexError
| FrozenInstanceError (name : string).

Global Instance Exception_eq_dec : EqDecision Exception.
Proof. solve_decision. Defined.

(** What running a piece of code gives: a value, a raised exception, or
    [Looping] when the iteration budget of a [while] loop ran out with
    its condition still true. *)
Inductive Result (A : Type) : Type :=
| Return (a : A)
| Raise (e : Exception)
| Looping.
Arguments Return {A} a.
Arguments Raise {A} e.
Arguments Looping {A}.

(** ** Data model *)

(** [@dataclass class Settings] (lines 48-57). *)
Record Settings : Type := mkSettings {
  region : string;
  bucket : string;
  prefix : string;
  cloudfront_distro : string;
  random_digits : Z;
  boto_signature_version : string;
}.

(** The defaults of the two optional fields. *)
Definition default_random_digits : Z := 8.
Definition default_boto_signature_version : string := "s3v4".

Definition Settings_init (region bucket prefix cloudfront_distro : string)
    (random_digits : option Z) (boto_signature_version : option string) : Settings :=
  {| region := region;
     bucket := bucket;
     prefix := prefix;
     cloudfront_distro := cloudfront_distro;
     random_digits := default default_random_digits random_digits;
     boto_signature_version :=
       default default_boto_signature_version boto_signature_version |}.

(** The parameters of the [dataclass] decorator that matter here.  The
    source writes a bare [@dataclass], so [frozen] keeps its default. *)
Record DataclassParams : Type := { frozen : bool }.
Definition dataclass_defaults : DataclassParams := {| frozen := false |}.
Definition Settings_params : DataclassParams := dataclass_defaults.

(** An attribute assignment [settings.<field> = value]. *)
Inductive Assignment : Type :=
| SetRegion (v : string)
| SetBucket (v : string)
| SetPrefix (v : string)
| SetCloudfrontDistro (v : string)
| SetRandomDigits (v : Z)
| SetBotoSignatureVersion (v : string).

Definition field_name (a : Assignment) : string :=
  match a with
  | SetRegion _ => "region"
  | SetBucket _ => "bucket"
  | SetPrefix _ => "prefix"
  | SetCloudfrontDistro _ => "cloudfront_distro"
  | SetRandomDigits _ => "random_digits"
  | SetBotoSignatureVersion _ => "boto_signature_version"
  end.

Definition assign (a : Assignment) (s : Settings) : Settings :=
  match a with
  | SetRegion v =>
      mkSettings v (bucket s) (prefix s) (cloudfront_distro s)
                 (random_digits s) (boto_signature_version s)
  | SetBucket v =>
      mkSettings (region s) v (prefix s) (cloudfront_distro s)
                 (random_digits s) (boto_signature_version s)
  | SetPrefix v =>
      mkSettings (region s) (bucket s) v (cloudfront_distro s)
                 (random_digits s) (boto_signature_version s)
  | SetCloudfrontDistro v =>
      mkSettings (region s) (bucket s) (prefix s) v
                 (random_digits s) (boto_signature_version s)
  | SetRandomDigits v =>
      mkSettings (region s) (bucket s) (prefix s) (cloudfront_distro s)
                 v (boto_signature_version s)
  | SetBotoSignatureVersion v =>
      mkSettings (region s) (bucket s) (prefix s) (cloudfront_distro s)
                 (random_digits s) v
  end.

(** [__setattr__] of a dataclass instance: a frozen dataclass raises
    [FrozenInstanceError], any other stores the value. *)
Definition dataclass_setattr (params : DataclassParams)
    (a : Assignment) (s : Settings) : Result Settings :=
  if frozen params then Raise (FrozenInstanceError (field_name a))
  else Return (assign a s).

Definition Settings_setattr : Assignment → Settings → Result Settings :=
  dataclass_setattr Settings_params.

(** The object [boto3.client("s3", region_name=..., config=Config(
    signature_version=...))] returns, identified by its arguments. *)
Record Client : Type := mkClient {
  service_name : string;
  region_name : string;
  signature_version : string;
}.

Global Instance Client_eq_dec : EqDecision Client.
Proof. solve_decision. Defined.

(** The keyword arguments of [put_object] built by [upload_kwargs]. *)
Record UploadKwargs : Type := mkUploadKwargs {
  Bucket : string;
  Key : string;
  Body : list Byte.byte;
  WebsiteRedirectLocation : string;
  ContentType : string;
}.

(** A request sent to the object store through a client. *)
Inductive Request : Type :=
| HeadObject (c : Client) (Bucket Key : string)
| PutObject (c : Client) (kwargs : UploadKwargs).


(** The bucket and the key a request names. *)
Definition bucket_of (r : Request) : string :=
  match r with HeadObject _ b _ => b | PutObject _ kwargs => Bucket kwargs end.
Definition key_of (r : Request) : string :=
  match r with HeadObject _ _ k => k | PutObject _ kwargs => Key kwargs end.

Definition is_head (r : Request) : bool :=
  match r with HeadObject _ _ _ => true | PutObject _ _ => false end.
Definition is_put (r : Request) : bool :=
  match r with HeadObject _ _ _ => false | PutObject _ _ => true end.

(** The answer of the object store to one request. *)
Inductive Reply : Type :=
| Success
| Failure (e : Exception).

(** What lies outside the module: boto3 and the object store behind the
    client, as an arbitrary state with the operations this module calls.
    [head_object] and [put_object] are the two requests;
    [client_refused service region signature b] is the class name of the
    botocore error with which [boto3.client] turns these arguments down,
    if it does (an invalid region name, say).  Building a client talks
    to nobody, so what it raises is never a [ClientError], the error of
    a service response.  These are external collaborators, so everything
    below is stated for every implementation of them. *)
Class S3Service (B : Type) : Type := {
  head_object : Client → string → string → B → Reply * B;
  put_object : Client → UploadKwargs → B → Reply * B;
  client_refused : string → string → string → B → option string;
}.

(** An instance of [ShortUrl]: the [settings] attribute set by
    [__init__] and the other entries of the instance [__dict__] (what
    an instance-level cached property stores). *)
Record ShortUrl : Type := mkShortUrl {
  settings : Settings;
  instance_dict : gmap string Client;
}.

(** [ShortUrl.__init__] (lines 63-64). *)
Definition ShortUrl_init (settings : Settings) : ShortUrl :=
  {| settings := settings; instance_dict := ∅ |}.

(** ** The process and the method monad *)

Section Generator.

Context {B : Type} `{!S3Service B}.

(** Everything outside the receiver that the methods touch. *)
Record Process : Type := mkProcess {
  (** attributes set on the class [ShortUrl] at run time *)
  class_dict : gmap string Client;
  (** the operating system's random source behind [random.SystemRandom],
      as the sequence of its draws, and how many were consumed *)
  urandom : nat → nat;
  drawn : nat;
  (** the remote object store *)
  s3 : B;
  (** the requests sent to the store, oldest first *)
  requests : list Request;
  (** the clients constructed by [boto3.client], oldest first *)
  clients_built : list Client;
}.

(** A method body: from the receiver and the process to a result, the
    receiver afterwards and the process afterwards. *)
Definition M (A : Type) : Type :=
  ShortUrl → Process → Result A * ShortUrl * Process.

Definition ret {A : Type} (a : A) : M A :=
  λ self p, (Return a, self, p).

Definition raise {A : Type} (e : Exception) : M A :=
  λ self p, (Raise e, self, p).

Definition bind {A C : Type} (m : M A) (k : A → M C) : M C :=
  λ self p,
    match m self p with
    | (Return a, self', p') => k a self' p'
    | (Raise e, self', p') => (Raise e, self', p')
    | (Looping, self', p') => (Looping, self', p')
    end.

(** [try: body except <class> as exc: handler exc]; [handler] is [None]
    on the exceptions the [except] clause does not match. *)
Definition try_except {A : Type} (body : M A)
    (handler : Exception → option (M A)) : M A :=
  λ self p,
    match body self p with
    | (Raise exc, self', p') =>
        match handler exc with
        | Some h => h self' p'
        | None => (Raise exc, self', p')
        end
    | other => other
    end.

Definition outcome {A : Type} (r : Result A * ShortUrl * Process) : Result A := r.1.1.
Definition receiver {A : Type} (r : Result A * ShortUrl * Process) : ShortUrl := r.1.2.
Definition process {A : Type} (r : Result A * ShortUrl * Process) : Process := r.2.

End Generator.

Arguments Process B : clear implicits.
Arguments M B A : clear implicits.

Declare Scope method_scope.
Delimit Scope method_scope with method.
Notation "x <- m ;; k" := (bind m (λ x, k))
  (at level 100, m at next level, right associativity) : method_scope.
Notation "m ;; k" := (bind m (λ _, k))
  (at level 100, right associativity) : method_scope.

Section Methods.

Context {B : Type} `{!S3Service B}.

Local Open Scope method_scope.

(** *** Attribute access *)

(** [obj = self.__class__ if cache_on_class else self] *)
Inductive Target : Type := OnClass | OnInstance.

(** Attribute lookup: on the class, its own attributes; on an instance,
    the instance [__dict__] first and then the class. *)
Definition lookup_attr (obj : Target) (name : string)
    (self : ShortUrl) (p : Process B) : option Client :=
  match obj with
  | OnClass => class_dict p !! name
  | OnInstance =>
      match instance_dict self !! name with
      | Some v => Some v
      | None => class_dict p !! name
      end
  end.

Definition hasattr (obj : Target) (name : string) : M B bool :=
  λ self p, (Return (bool_decide (is_Some (lookup_attr obj name self p))), self, p).

Definition getattr (obj : Target) (name : string) : M B Client :=
  λ self p,
    match lookup_attr obj name self p with
    | Some v => (Return v, self, p)
    | None => (Raise (AttributeError name), self, p)
    end.

Definition setattr (obj : Target) (name : string) (v : Client) : M B unit :=
  λ self p,
    match obj with
    | OnClass =>
        (Return tt, self,
         mkProcess (<[name := v]> (class_dict p)) (urandom p) (drawn p)
                   (s3 p) (requests p) (clients_built p))
    | OnInstance =>
        (Return tt, mkShortUrl (settings self) (<[name := v]> (instance_dict self)), p)
    end.

(** [self.settings] *)
Definition get_settings : M B Settings :=
  λ self p, (Return (settings self), self, p).

(** *** The cached-property helpers (lines 11-45) *)

Definition make_cached_property (func_name : string) (func : M B Client)
    (cache_on_class : bool) : M B Client :=
  let attr_name := "_cache_" +:+ func_name in
  let obj := if cache_on_class then OnClass else OnInstance in
  found <- hasattr obj attr_name ;;
  (if negb found
   then (v <- func ;; setattr obj attr_name v)
   else ret tt) ;;
  getattr obj attr_name.

Definition cached_property (func_name : string) (func : M B Client) : M B Client :=
  make_cached_property func_name func false.

Definition class_cached_property (func_name : string) (func : M B Client) : M B Client :=
  make_cached_property func_name func true.

(** *** boto3 *)

(** [boto3.client(service, region_name=..., config=Config(
    signature_version=...))]: raises when the arguments are turned
    down; otherwise builds a client and leaves a trace of the
    construction. *)
Definition boto3_client (service region_name signature_version : string) : M B Client :=
  λ self p,
    match client_refused service region_name signature_version (s3 p) with
    | Some name => (Raise (BotoCoreError name), self, p)
    | None =>
        let c := mkClient service region_name signature_version in
        (Return c, self,
         mkProcess (class_dict p) (urandom p) (drawn p) (s3 p) (requests p)
                   (clients_built p ++ [c]))
    end.

Definition reply_result (r : Reply) : Result unit :=
  match r with
  | Success => Return tt
  | Failure e => Raise e
  end.

(** [client.head_object(Bucket=..., Key=...)] *)
Definition client_head_object (c : Client) (bucket key : string) : M B unit :=
  λ self p,
    let '(reply, b') := head_object c bucket key (s3 p) in
    (reply_result reply, self,
     mkProcess (class_dict p) (urandom p) (drawn p) b'
               (requests p ++ [HeadObject c bucket key]) (clients_built p)).

(** [client.put_object] applied to the keyword arguments [kwargs] *)
Definition client_put_object (c : Client) (kwargs : UploadKwargs) : M B unit :=
  λ self p,
    let '(reply, b') := put_object c kwargs (s3 p) in
    (reply_result reply, self,
     mkProcess (class_dict p) (urandom p) (drawn p) b'
               (requests p ++ [PutObject c kwargs]) (clients_built p)).

(** *** random and string *)

Definition ascii_lowercase : string := "abcdefghijklmnopqrstuvwxyz".
Definition digits : string := "0123456789".

(** The next draw of the system random source, reduced below [n]: what
    [SystemRandom()._randbelow(n)] delivers. *)
Definition randbelow (n : nat) : M B nat :=
  λ self p,
    (Return (urandom p (drawn p) mod n)%nat, self,
     mkProcess (class_dict p) (urandom p) (S (drawn p)) (s3 p)
               (requests p) (clients_built p)).

(** [random.SystemRandom().choice(seq)] is [seq[_randbelow(len(seq))]];
    indexing out of range raises [IndexError]. *)
Definition choice (seq : string) : M B ascii :=
  i <- randbelow (String.length seq) ;;
  match String.get i seq with
  | Some c => ret c
  | None => raise IndexError
  end.

(** ["{}/{}".format(a, b)] *)
Definition format_slash (a b : string) : string := a +:+ "/" +:+ b.

(** *** ShortUrl (lines 60-122) *)

Definition s3_client : M B Client :=
  class_cached_property "s3_client"
    (s <- get_settings ;;
     boto3_client "s3" (region s) (boto_signature_version s)).

(** The empty string joining [choice(seq)] taken [n] times: [str.join]
    over [for _ in range(n)]. *)
Fixpoint join_choices (seq : string) (n : nat) : M B string :=
  match n with
  | O => ret EmptyString
  | S n' =>
      c <- choice seq ;;
      rest <- join_choices seq n' ;;
      ret (String c rest)
  end.

Definition generate_random : M B string :=
  s <- get_settings ;;
  join_choices (ascii_lowercase +:+ digits) (Z.to_nat (random_digits s)).

Definition exists_s3_key (key : string) : M B bool :=
  try_except
    (c <- s3_client ;;
     s <- get_settings ;;
     client_head_object c (bucket s) key ;;
     ret true)
    (λ exc,
       match exc with
       | ClientError code =>
           Some (if String.eqb code "404" then ret false
                 else if String.eqb code "403" then ret false
                 else raise exc)
       | _ => None
       end).

Definition upload_kwargs (key native_url : string) : M B UploadKwargs :=
  s <- get_settings ;;
  ret {| Bucket := bucket s;
         Key := key;
         Body := [];
         WebsiteRedirectLocation := native_url;
         ContentType := "text/plain" |}.

Definition upload_object (key native_url : string) : M B unit :=
  kwargs <- upload_kwargs key native_url ;;
  c <- s3_client ;;
  client_put_object c kwargs.

(** One pass through the body of [while check:]; it leaves the new
    values of [check] and [short_key]. *)
Definition loop_body : M B (bool * string) :=
  short_id <- generate_random ;;
  s <- get_settings ;;
  let short_key := format_slash (prefix s) short_id in
  check <- exists_s3_key short_key ;;
  ret (check, short_key).

(** [while check: ...] entered with [check = True], run for at most
    [fuel] passes; it leaves [short_key]. *)
Fixpoint while_check (fuel : nat) : M B string :=
  match fuel with
  | O => λ self p, (Looping, self, p)
  | S fuel' =>
      r <- loop_body ;;
      if r.1 then while_check fuel' else ret r.2
  end.

(** [generate] (lines 114-122); [fuel] bounds the passes of its loop,
    and [Looping] says that the bound was reached with [check] true. *)
Definition generate (fuel : nat) (native_url : string) : M B string :=
  short_key <- while_check fuel ;;
  upload_object short_key native_url ;;
  s <- get_settings ;;
  ret (format_slash (cloudfront_distro s) short_key).

End Methods.

(** ** Observing a run *)

Section Observations.

Context {B : Type} `{!S3Service B}.

(** The receiver and the process after [n] passes through the loop body,
    whatever each pass leaves in [check]. *)
Fixpoint passes (n : nat) (self : ShortUrl) (p : Process B) : ShortUrl * Process B :=
  match n with
  | O => (self, p)
  | S n' =>
      let r := loop_body self p in
      passes n' (receiver r) (process r)
  end.

(** What the existence probe of the next pass reports. *)
Definition probe (self : ShortUrl) (p : Process B) : Result bool :=
  match outcome (loop_body self p) with
  | Return r => Return r.1
  | Raise e => Raise e
  | Looping => Looping
  end.

(** What the probe of pass number [n] (counted from 0) reports. *)
Definition probe_at (n : nat) (self : ShortUrl) (p : Process B) : Result bool :=
  let st := passes n self p in
  probe st.1 st.2.

(** The candidate key of the next pass. *)
Definition candidate (self : ShortUrl) (p : Process B) : string :=
  match outcome (generate_random self p) with
  | Return short_id => format_slash (prefix (settings self)) short_id
  | _ => EmptyString
  end.

(** The 36 symbols [generate_random] chooses from. *)
Definition alphabet : string := ascii_lowercase +:+ digits.

(** The number of characters [generate_random] asks for:
    [range(random_digits)] is empty for a non-positive bound. *)
Definition suffix_length (self : ShortUrl) : nat :=
  Z.to_nat (random_digits (settings self)).

(** How [exists_s3_key] reads the answer to its [head_object] request. *)
Definition normalize (reply : Reply) : Result bool :=
  match reply with
  | Success => Return true
  | Failure (ClientError code) =>
      if String.eqb code "404" then Return false
      else if String.eqb code "403" then Return false
      else Raise (ClientError code)
  | Failure e => Raise e
  end.

(** The result of a pass, from the key it tried and what the probe
    reported. *)
Definition lift_check (key : string) (r : Result bool) : Result (bool * string) :=
  match r with
  | Return c => Return (c, key)
  | Raise e => Raise e
  | Looping => Looping
  end.

(** The result of [generate], from the key written and the answer to
    the write. *)
Definition finish (short_url : string) (reply : Reply) : Result string :=
  match reply with
  | Success => Return short_url
  | Failure e => Raise e
  end.

(** The process after [n] more draws from the random source. *)
Definition advance (n : nat) (p : Process B) : Process B :=
  mkProcess (class_dict p) (urandom p) (n + drawn p) (s3 p)
            (requests p) (clients_built p).

(** The name under which [s3_client] is cached. *)
Definition cache_name : string := "_cache_s3_client".

(** The client [boto3.client] builds from the settings of [self]. *)
Definition own_client (self : ShortUrl) : Client :=
  mkClient "s3" (region (settings self)) (boto_signature_version (settings self)).

(** What stands in the way of an access to [self.s3_client]: nothing
    when a client is cached on the class, and otherwise the error with
    which [boto3.client] turns the settings of [self] down, if any. *)
Definition refusal (self : ShortUrl) (p : Process B) : option string :=
  match class_dict p !! cache_name with
  | Some _ => None
  | None =>
      client_refused "s3" (region (settings self))
                     (boto_signature_version (settings self)) (s3 p)
  end.

(** The client an access to [self.s3_client] yields when nothing stands
    in its way, and the process the access leaves. *)
Definition client_in_use (self : ShortUrl) (p : Process B) : Client :=
  default (own_client self) (class_dict p !! cache_name).

Definition after_client (self : ShortUrl) (p : Process B) : Process B :=
  match class_dict p !! cache_name with
  | Some _ => p
  | None =>
      match client_refused "s3" (region (settings self))
                           (boto_signature_version (settings self)) (s3 p) with
      | Some _ => p
      | None =>
          mkProcess (<[cache_name := own_client self]> (class_dict p))
                    (urandom p) (drawn p) (s3 p) (requests p)
                    (clients_built p ++ [own_client self])
      end
  end.

(** What the access gives. *)
Definition client_access (self : ShortUrl) (p : Process B) : Result Client :=
  match refusal self p with
  | Some name => Raise (BotoCoreError name)
  | None => Return (client_in_use self p)
  end.

(** The process after one request with the given answer. *)
Definition after_request (rq : Request) (b' : B) (p : Process B) : Process B :=
  mkProcess (class_dict p) (urandom p) (drawn p) b'
            (requests p ++ [rq]) (clients_built p).

(** The request the probe of the next pass sends, and the store's
    answer to it. *)
Definition probe_request (self : ShortUrl) (p : Process B) : Request :=
  HeadObject (client_in_use self p) (bucket (settings self)) (candidate self p).

Definition probe_reply (self : ShortUrl) (p : Process B) : Reply * B :=
  head_object (client_in_use self p) (bucket (settings self)) (candidate self p) (s3 p).

(** The request [upload_object] sends, and the store's answer to it. *)
Definition write_request (key native_url : string) (self : ShortUrl) (p : Process B) : Request :=
  PutObject (client_in_use self p)
            (mkUploadKwargs (bucket (settings self)) key [] native_url "text/plain").

Definition write_reply (key native_url : string) (self : ShortUrl) (p : Process B) : Reply * B :=
  put_object (client_in_use self p)
             (mkUploadKwargs (bucket (settings self)) key [] native_url "text/plain")
             (s3 p).

(** Where [make_cached_property] keeps the value. *)
Definition cache_target (cache_on_class : bool) : Target :=
  if cache_on_class then OnClass else OnInstance.

(** The process with another random source. *)
Definition with_urandom (draws : nat → nat) (p : Process B) : Process B :=
  mkProcess (class_dict p) draws (drawn p) (s3 p) (requests p) (clients_built p).

(** The probe reports "exists" for the first [n] candidate keys. *)
Definition colliding (n : nat) (self : ShortUrl) (p : Process B) : Prop :=
  ∀ i, (i < n)%nat → probe_at i self p = Return true.

(** The first [n] probes have each reported something. *)
Definition answered (n : nat) (self : ShortUrl) (p : Process B) : Prop :=
  ∀ i, (i < n)%nat → ∃ b, probe_at i self p = Return b.

(** The store serving one request, and the store after serving a list
    of requests in order. *)
Definition serve (rq : Request) (b : B) : Reply * B :=
  match rq with
  | HeadObject c bucket key => head_object c bucket key b
  | PutObject c kwargs => put_object c kwargs b
  end.

Definition replay (rqs : list Request) (b : B) : B :=
  fold_left (λ b rq, (serve rq b).2) rqs b.



(** The three ways a run of [generate] can go. *)
Inductive Run (fuel : nat) (native_url : string) (self : ShortUrl) (p : Process B) : Prop :=
| RunWrites (n : nat) :
    (n < fuel)%nat → colliding n self p → probe_at n self p = Return false →
    generate fuel native_url self p =
      (let key := candidate self (passes n self p).2 in
       let p' := (passes (S n) self p).2 in
       (finish (format_slash (cloudfront_distro (settings self)) key)
               (write_reply key native_url self p').1,
        self,
        after_request (write_request key native_url self p')
                      (write_reply key native_url self p').2 (after_client self p'))) →
    Run fuel native_url self p
| RunProbeFails (n : nat) (e : Exception) :
    (n < fuel)%nat → colliding n self p → probe_at n self p = Raise e →
    generate fuel native_url self p = (Raise e, self, (passes (S n) self p).2) →
    Run fuel native_url self p
| RunLoops :
    colliding fuel self p →
    generate fuel native_url self p = (Looping, self, (passes fuel self p).2) →
    Run fuel native_url self p.

End Observations.

(** The probes and the writes among a list of requests. *)
Definition probes (l : list Request) : list Request := filter (λ r, is_head r = true) l.
Definition writes (l : list Request) : list Request := filter (λ r, is_put r = true) l.

(** ** Strings *)

(** [s.split(sep)] for a one-character separator. *)
Fixpoint split (sep : ascii) (s : string) : list string :=
  match s with
  | EmptyString => [EmptyString]
  | String c rest =>
      if Ascii.eqb c sep then EmptyString :: split sep rest
      else match split sep rest with
           | seg :: segs => String c seg :: segs
           | [] => [String c EmptyString]
           end
  end.

(** Number of occurrences of a character. *)
Fixpoint occurrences (sep : ascii) (s : string) : nat :=
  match s with
  | EmptyString => O
  | String c rest => ((if Ascii.eqb c sep then 1 else 0) + occurrences sep rest)%nat
  end.

(** The first position of a character in a string (its length when
    the character does not occur). *)
Fixpoint index_in (c : ascii) (s : string) : nat :=
  match s with
  | EmptyString => O
  | String x rest => if Ascii.eqb x c then O else S (index_in c rest)
  end.

(** The character class [a-z0-9]. *)
Definition lower_or_digit (c : ascii) : bool :=
  let n := nat_of_ascii c in
  ((97 <=? n)%nat && (n <=? 122)%nat) || ((48 <=? n)%nat && (n <=? 57)%nat).

Definition chars (s : string) : list ascii := list_ascii_of_string s.

(** The requests [generate] may send on behalf of [self]: to the
    configured bucket, for a key made of the configured prefix, a slash
    and a suffix of the configured length over the alphabet. *)
Definition in_keyspace (self : ShortUrl) (rq : Request) : Prop :=
  bucket_of rq = bucket (settings self)
  ∧ ∃ short_id,
      key_of rq = format_slash (prefix (settings self)) short_id
      ∧ String.length short_id = suffix_length self
      ∧ Forall (λ c, In c (chars alphabet)) (chars short_id).

(** ** Two object stores *)

(** A region name as botocore accepts it: a host label, that is at most
    63 letters, digits and hyphens, not all digits, with no hyphen at
    either end. *)
Definition host_label_char (c : ascii) : bool :=
  let n := nat_of_ascii c in
  ((97 <=? n)%nat && (n <=? 122)%nat) || ((65 <=? n)%nat && (n <=? 90)%nat)
  || ((48 <=? n)%nat && (n <=? 57)%nat) || (n =? 45)%nat.

Definition is_digit (c : ascii) : bool :=
  let n := nat_of_ascii c in (48 <=? n)%nat && (n <=? 57)%nat.

Definition valid_host_label (s : string) : bool :=
  let cs := chars s in
  forallb host_label_char cs
  && (length cs <=? 63)%nat
  && negb (forallb is_digit cs && negb (length cs =? 0)%nat)
  && negb (bool_decide (head cs = Some "-"%char))
  && negb (bool_decide (last cs = Some "-"%char)).

(** An in-memory bucket store.  A missing key answers 404 when the
    caller may list the bucket and 403 when it may not (the two cases
    named in [exists_s3_key]); a client is refused for a region name
    that is no host label. *)
Record StoredObject : Type := mkStoredObject {
  stored_body : list Byte.byte;
  stored_redirect : string;
  stored_content_type : string;
}.

Record Buckets : Type := mkBuckets {
  objects : gmap (string * string) StoredObject;
  list_bucket_granted : bool;
}.

Global Instance Buckets_service : S3Service Buckets := {|
  head_object _ bucket key b :=
    match objects b !! (bucket, key) with
    | Some _ => (Success, b)
    | None =>
        (Failure (ClientError (if list_bucket_granted b then "404" else "403")), b)
    end;
  put_object _ kwargs b :=
    (Success,
     mkBuckets
       (<[(Bucket kwargs, Key kwargs) :=
            mkStoredObject (Body kwargs) (WebsiteRedirectLocation kwargs)
                           (ContentType kwargs)]> (objects b))
       (list_bucket_granted b));
  client_refused _ region_name _ _ :=
    if valid_host_label region_name then None else Some "InvalidRegionError";
|}.

(** A scripted store, in the manner of a mock: the probe answers are
    read off a script, then a fixed answer is given for ever; every
    write gets the same answer; a client is never refused. *)
Record Script : Type := mkScript {
  head_script : list Reply;
  head_then : Reply;
  put_answer : Reply;
}.

Global Instance Script_service : S3Service Script := {|
  head_object _ _ _ b :=
    match head_script b with
    | r :: rest => (r, mkScript rest (head_then b) (put_answer b))
    | [] => (head_then b, b)
    end;
  put_object _ _ b := (put_answer b, b);
  client_refused _ _ _ _ := None;
|}.

(** ** Sample data *)

(** The settings of the repository's test. *)
Definition test_settings : Settings :=
  Settings_init "blah-blah" "blah" "a" "shor.ty" (Some 4) None.

Definition start {B : Type} (b : B) (draws : nat → nat) : Process B :=
  mkProcess ∅ draws 0 b [] [].

Definition absent : Reply := Failure (ClientError "404").
Definition denied : Reply := Failure (ClientError "403").
Definition server_error : Reply := Failure (ClientError "500").

Definition test_instance : ShortUrl := ShortUrl_init test_settings.
Definition sample_draws : nat → nat := λ n, (n * 7 + 3)%nat.
Definition sample_url : string := "http://www.google.com".

(** Mocked stores: the key is always free; the first two candidates are
    taken; every candidate is taken; the second probe fails. *)
Definition always_absent : Script := mkScript [] absent Success.
Definition two_collisions : Script := mkScript [Success; Success] absent Success.
Definition always_exists : Script := mkScript [] Success Success.
Definition failing_probe : Script := mkScript [Success; server_error] absent Success.

(** Settings the constructor accepts: a prefix with a slash, no suffix
    at all, another region. *)
Definition slash_settings : Settings :=
  Settings_init "blah-blah" "blah" "a/b" "shor.ty" (Some 4) None.
Definition empty_suffix_settings : Settings :=
  Settings_init "blah-blah" "blah" "a" "shor.ty" (Some (-3)) None.
Definition other_settings : Settings :=
  Settings_init "eu-west-1" "other" "x" "tiny.example" None (Some "s3").

(** The function [s3_client] wraps, and one that fails on its first
    run (no draw consumed yet) and builds the client afterwards. *)
Definition build_client {B : Type} `{!S3Service B} : M B Client :=
  bind get_settings (λ s, boto3_client "s3" (region s) (boto_signature_version s)).

Definition flaky_build {B : Type} `{!S3Service B} : M B Client :=
  λ self p,
    if Nat.eqb (drawn p) 0
    then (Raise (BotoCoreError "EndpointConnectionError"), self, advance 1 p)
    else (Return (own_client self), self, p).

(** A store that refuses everything, as for a caller without
    permissions; an empty in-memory store; draws that give the same
    suffix twice and then another one; settings with the defaults. *)
Definition refusing : Script := mkScript [] denied denied.
Definition empty_buckets : Buckets := mkBuckets ∅ true.
Definition stuck_then_fresh : nat → nat := λ n, if (n <? 8)%nat then 3%nat else 4%nat.
Definition one_key_buckets : Buckets :=
  mkBuckets {[ ("blah", "a/") := mkStoredObject [] sample_url "text/plain" ]} true.
Definition bad_region_settings : Settings :=
  Settings_init "not valid" "blah" "a" "shor.ty" (Some 4) None.
Definition bad_instance : ShortUrl := ShortUrl_init bad_region_settings.

(** Settings with a suffix of one character, and an in-memory store
    that holds all 36 keys they can name. *)
Definition one_char_settings : Settings :=
  Settings_init "blah-blah" "blah" "a" "shor.ty" (Some 1) None.
Definition full_buckets : Buckets :=
  mkBuckets
    (list_to_map
       (map (λ c, (("blah", "a/" +:+ String c EmptyString),
                   mkStoredObject [] sample_url "text/plain"))
            (chars alphabet)))
    true.

Definition default_settings : Settings :=
  Settings_init "blah-blah" "blah" "a" "shor.ty" None None.

(** The in-memory store has an object under a key. *)
Definition Buckets_holds (b : Buckets) (bucket key : string) : Prop :=
  is_Some (objects b !! (bucket, key)).

(** * Properties *)

(** ** Strings *)

Lemma length_append (a b : string) :
  String.length (a +:+ b) = (String.length a + String.length b)%nat.
Proof. induction a as [|c a IH]; simpl; [reflexivity|]. rewrite IH. reflexivity. Qed.

Lemma split_nonempty (sep : ascii) (s : string) : split sep s ≠ [].
Proof.
  induction s as [|c s IH]; simpl; [discriminate|].
  destruct (Ascii.eqb c sep); [discriminate|].
  destruct (split sep s); [contradiction|discriminate].
Qed.

(** Splitting distributes over a separator between two strings. *)
Lemma split_append (sep : ascii) (a b : string) :
  split sep (a +:+ String sep b) = split sep a ++ split sep b.
Proof.
  induction a as [|c a IH]; simpl.
  - rewrite Ascii.eqb_refl. reflexivity.
  - destruct (Ascii.eqb c sep); [rewrite IH; reflexivity|].
    rewrite IH. destruct (split sep a) as [|seg segs] eqn:Hsplit.
    + exfalso. eapply split_nonempty. exact Hsplit.
    + reflexivity.
Qed.

Lemma split_length (sep : ascii) (s : string) :
  length (split sep s) = S (occurrences sep s).
Proof.
  induction s as [|c s IH]; simpl; [reflexivity|].
  destruct (Ascii.eqb c sep); simpl; [congruence|].
  destruct (split sep s) as [|seg segs] eqn:Hsplit.
  - exfalso. eapply split_nonempty. exact Hsplit.
  - exact IH.
Qed.

Lemma split_single (sep : ascii) (s : string) :
  occurrences sep s = 0%nat → split sep s = [s].
Proof.
  induction s as [|c s IH]; simpl; [reflexivity|].
  destruct (Ascii.eqb c sep); simpl; [discriminate|].
  intros H0. rewrite IH by exact H0. reflexivity.
Qed.

Lemma occurrences_outside (sep : ascii) (s : string) :
  lower_or_digit sep = false →
  Forall (λ c, lower_or_digit c = true) (chars s) →
  occurrences sep s = 0%nat.
Proof.
  intros Hsep. induction s as [|c s IH]; simpl; [reflexivity|].
  intros Hall. apply Forall_cons in Hall as [Hc Hall].
  destruct (Ascii.eqb_spec c sep) as [->|_]; [congruence|].
  apply IH. exact Hall.
Qed.

(** ** The monad *)

Section Facts.

Context {B : Type} `{!S3Service B}.

Local Open Scope method_scope.

Lemma bind_return {A C : Type} (m : M B A) (k : A → M B C)
    (self self' : ShortUrl) (p p' : Process B) (a : A) :
  m self p = (Return a, self', p') → bind m k self p = k a self' p'.
Proof. unfold bind. intros ->. reflexivity. Qed.

Lemma bind_raise {A C : Type} (m : M B A) (k : A → M B C)
    (self self' : ShortUrl) (p p' : Process B) (e : Exception) :
  m self p = (Raise e, self', p') → bind m k self p = (Raise e, self', p').
Proof. unfold bind. intros ->. reflexivity. Qed.

Lemma bind_looping {A C : Type} (m : M B A) (k : A → M B C)
    (self self' : ShortUrl) (p p' : Process B) :
  m self p = (Looping, self', p') → bind m k self p = (Looping, self', p').
Proof. unfold bind. intros ->. reflexivity. Qed.

Lemma advance_0 (p : Process B) : advance 0 p = p.
Proof. destruct p. reflexivity. Qed.

Lemma advance_S n (p : Process B) : advance n (advance 1 p) = advance (S n) p.
Proof. unfold advance. simpl. f_equal. lia. Qed.

(** ** The cached client *)

Lemma s3_client_eq (self : ShortUrl) (p : Process B) :
  s3_client self p = (client_access self p, self, after_client self p).
Proof.
  unfold s3_client, class_cached_property, make_cached_property,
    client_access, refusal, client_in_use, after_client.
  change ("_cache_" +:+ "s3_client") with cache_name.
  unfold bind at 1. unfold hasattr at 1. simpl lookup_attr.
  destruct (class_dict p !! cache_name) as [c|] eqn:Hc.
  - rewrite bool_decide_eq_true_2 by eauto. simpl.
    unfold bind, ret, getattr. simpl. rewrite Hc. reflexivity.
  - rewrite bool_decide_eq_false_2 by (intros [? ?]; discriminate). simpl.
    unfold bind, ret, getattr, get_settings, boto3_client, setattr. simpl.
    destruct (client_refused _ _ _ _); [reflexivity|]. simpl.
    rewrite lookup_insert_eq. reflexivity.
Qed.

Lemma s3_client_ok (self : ShortUrl) (p : Process B) :
  refusal self p = None →
  s3_client self p = (Return (client_in_use self p), self, after_client self p).
Proof. intros Hok. rewrite s3_client_eq. unfold client_access. rewrite Hok. reflexivity. Qed.

Lemma s3_client_refused (self : ShortUrl) (p : Process B) (name : string) :
  refusal self p = Some name →
  s3_client self p = (Raise (BotoCoreError name), self, p).
Proof.
  intros Hno. rewrite s3_client_eq. unfold client_access. rewrite Hno.
  unfold refusal, after_client in *.
  destruct (class_dict p !! cache_name); [discriminate|]. rewrite Hno. reflexivity.
Qed.

(** ** The random suffix *)

Lemma get_chars (s : string) (i : nat) (c : ascii) :
  String.get i s = Some c → In c (chars s).
Proof.
  revert i. induction s as [|a s IH]; intros i Hget; [discriminate|].
  destruct i as [|i]; simpl in *.
  - left. congruence.
  - right. eapply IH. exact Hget.
Qed.

Lemma alphabet_get (i : nat) :
  (i < 36)%nat → ∃ c, String.get i alphabet = Some c.
Proof.
  intros Hi.
  do 36 (destruct i as [|i]; [eexists; reflexivity|]).
  lia.
Qed.

Lemma alphabet_class (c : ascii) :
  In c (chars alphabet) → lower_or_digit c = true.
Proof.
  assert (Hall : Forall (λ c, lower_or_digit c = true) (chars alphabet))
    by (repeat constructor).
  rewrite Forall_forall in Hall. intros Hin. apply Hall.
  apply list_elem_of_In. exact Hin.
Qed.

Lemma choice_alphabet (self : ShortUrl) (p : Process B) :
  ∃ c, choice alphabet self p = (Return c, self, advance 1 p)
       ∧ In c (chars alphabet).
Proof.
  destruct (alphabet_get (urandom p (drawn p) mod 36)) as (c & Hget).
  { apply Nat.mod_upper_bound. lia. }
  exists c. split; [|eapply get_chars; exact Hget].
  unfold choice, bind, randbelow.
  change (String.length alphabet) with 36%nat.
  rewrite Hget. reflexivity.
Qed.

Lemma join_choices_alphabet (n : nat) (self : ShortUrl) (p : Process B) :
  ∃ s, join_choices alphabet n self p = (Return s, self, advance n p)
       ∧ String.length s = n
       ∧ Forall (λ c, In c (chars alphabet)) (chars s).
Proof.
  revert p. induction n as [|n IH]; intros p.
  - exists EmptyString. rewrite advance_0. repeat split. constructor.
  - destruct (choice_alphabet self p) as (c & Hc & Hcls).
    destruct (IH (advance 1 p)) as (s & Hs & Hlen & Hall).
    exists (String c s). split; [|split].
    + cbn [join_choices].
      rewrite (bind_return _ _ _ _ _ _ _ Hc).
      rewrite (bind_return _ _ _ _ _ _ _ Hs).
      unfold ret. rewrite advance_S. reflexivity.
    + simpl. congruence.
    + simpl. constructor; assumption.
Qed.

Lemma generate_random_eq (self : ShortUrl) (p : Process B) :
  ∃ s, generate_random self p = (Return s, self, advance (suffix_length self) p)
       ∧ String.length s = suffix_length self
       ∧ Forall (λ c, In c (chars alphabet)) (chars s).
Proof.
  destruct (join_choices_alphabet (suffix_length self) self p) as (s & Hs & Hrest).
  exists s. split; [|exact Hrest].
  unfold generate_random, bind, get_settings. exact Hs.
Qed.

(** ** The existence probe *)

Lemma after_client_s3 (self : ShortUrl) (p : Process B) :
  s3 (after_client self p) = s3 p.
Proof.
  unfold after_client. destruct (class_dict p !! cache_name); [reflexivity|].
  destruct (client_refused _ _ _ _); reflexivity.
Qed.

Lemma after_client_requests (self : ShortUrl) (p : Process B) :
  requests (after_client self p) = requests p.
Proof.
  unfold after_client. destruct (class_dict p !! cache_name); [reflexivity|].
  destruct (client_refused _ _ _ _); reflexivity.
Qed.

Lemma after_client_cached (self : ShortUrl) (p : Process B) :
  refusal self p = None →
  class_dict (after_client self p) !! cache_name = Some (client_in_use self p).
Proof.
  unfold refusal, after_client, client_in_use.
  destruct (class_dict p !! cache_name) as [c|] eqn:Hc; simpl.
  - intros _. exact Hc.
  - intros ->. apply lookup_insert_eq.
Qed.

Lemma refusal_cached (c : Client) (self : ShortUrl) (p : Process B) :
  class_dict p !! cache_name = Some c → refusal self p = None.
Proof. intros Hc. unfold refusal. rewrite Hc. reflexivity. Qed.

Lemma exists_s3_key_eq (key : string) (self : ShortUrl) (p : Process B) :
  refusal self p = None →
  exists_s3_key key self p =
    let c := client_in_use self p in
    let rq := HeadObject c (bucket (settings self)) key in
    let rb := head_object c (bucket (settings self)) key (s3 p) in
    (normalize rb.1, self, after_request rq rb.2 (after_client self p)).
Proof.
  intros Hok. cbv zeta. unfold exists_s3_key, try_except.
  rewrite (bind_return _ _ _ _ _ _ _ (s3_client_ok self p Hok)).
  unfold bind at 1. unfold get_settings at 1.
  unfold bind at 1. unfold client_head_object.
  rewrite after_client_s3.
  destruct (head_object (client_in_use self p) (bucket (settings self)) key (s3 p))
    as [reply b'] eqn:Hhead.
  destruct reply as [|e]; simpl.
  - reflexivity.
  - destruct e as [code| | | |]; simpl; try reflexivity.
    destruct (String.eqb code "404"); [reflexivity|].
    destruct (String.eqb code "403"); reflexivity.
Qed.

Lemma exists_s3_key_refused (key : string) (self : ShortUrl) (p : Process B)
    (name : string) :
  refusal self p = Some name →
  exists_s3_key key self p = (Raise (BotoCoreError name), self, p).
Proof.
  intros Hno. unfold exists_s3_key, try_except.
  rewrite (bind_raise _ _ _ _ _ _ _ (s3_client_refused self p name Hno)).
  reflexivity.
Qed.

(** ** One pass through the loop *)

Lemma candidate_advance (self : ShortUrl) (p : Process B) :
  ∃ short_id,
    generate_random self p = (Return short_id, self, advance (suffix_length self) p)
    ∧ candidate self p = format_slash (prefix (settings self)) short_id
    ∧ String.length short_id = suffix_length self
    ∧ Forall (λ c, In c (chars alphabet)) (chars short_id).
Proof.
  destruct (generate_random_eq self p) as (s & Hs & Hlen & Hall).
  exists s. repeat split; try assumption.
  unfold candidate, outcome. rewrite Hs. reflexivity.
Qed.

Lemma loop_body_ok (self : ShortUrl) (p : Process B) :
  refusal self p = None →
  loop_body self p =
    (lift_check (candidate self p) (normalize (probe_reply self p).1), self,
     after_request (probe_request self p) (probe_reply self p).2
                   (after_client self (advance (suffix_length self) p))).
Proof.
  intros Hok.
  destruct (candidate_advance self p) as (s & Hs & Hkey & _).
  unfold loop_body.
  rewrite (bind_return _ _ _ _ _ _ _ Hs).
  unfold bind at 1. unfold get_settings at 1.
  unfold bind. rewrite exists_s3_key_eq by exact Hok. cbv zeta.
  rewrite <- Hkey. unfold probe_reply, probe_request.
  change (client_in_use self (advance (suffix_length self) p))
    with (client_in_use self p).
  change (s3 (advance (suffix_length self) p)) with (s3 p).
  destruct (normalize _); reflexivity.
Qed.

(** When no client can be had, the pass has drawn its candidate and
    sent nothing. *)
Lemma loop_body_refused (self : ShortUrl) (p : Process B) (name : string) :
  refusal self p = Some name →
  loop_body self p = (Raise (BotoCoreError name), self, advance (suffix_length self) p).
Proof.
  intros Hno.
  destruct (candidate_advance self p) as (s & Hs & Hkey & _).
  unfold loop_body.
  rewrite (bind_return _ _ _ _ _ _ _ Hs).
  unfold bind at 1. unfold get_settings at 1.
  unfold bind. rewrite (exists_s3_key_refused _ self _ name) by exact Hno.
  reflexivity.
Qed.

Lemma probe_eq (self : ShortUrl) (p : Process B) :
  probe self p =
    match refusal self p with
    | Some name => Raise (BotoCoreError name)
    | None => normalize (probe_reply self p).1
    end.
Proof.
  unfold probe, outcome. destruct (refusal self p) as [name|] eqn:Hr.
  - rewrite (loop_body_refused self p name Hr). reflexivity.
  - rewrite (loop_body_ok self p Hr). simpl. destruct (normalize _); reflexivity.
Qed.

(** A probe that reports something has had its client. *)
Lemma probe_return (self : ShortUrl) (p : Process B) (b : bool) :
  probe self p = Return b →
  refusal self p = None ∧ normalize (probe_reply self p).1 = Return b.
Proof.
  rewrite probe_eq. destruct (refusal self p); [discriminate|]. auto.
Qed.

Lemma loop_body_probe (self : ShortUrl) (p : Process B) :
  outcome (loop_body self p) = lift_check (candidate self p) (probe self p).
Proof.
  rewrite probe_eq. destruct (refusal self p) as [name|] eqn:Hr.
  - rewrite (loop_body_refused self p name Hr). reflexivity.
  - rewrite (loop_body_ok self p Hr). reflexivity.
Qed.

Lemma loop_body_receiver (self : ShortUrl) (p : Process B) :
  receiver (loop_body self p) = self.
Proof.
  destruct (refusal self p) as [name|] eqn:Hr.
  - rewrite (loop_body_refused self p name Hr). reflexivity.
  - rewrite (loop_body_ok self p Hr). reflexivity.
Qed.

Lemma loop_body_requests (self : ShortUrl) (p : Process B) :
  refusal self p = None →
  requests (process (loop_body self p)) = requests p ++ [probe_request self p].
Proof.
  intros Hok. rewrite (loop_body_ok self p Hok). unfold process, after_request. simpl.
  rewrite after_client_requests. reflexivity.
Qed.

Lemma loop_body_cached (self : ShortUrl) (p : Process B) :
  refusal self p = None →
  class_dict (process (loop_body self p)) !! cache_name = Some (client_in_use self p).
Proof.
  intros Hok. rewrite (loop_body_ok self p Hok). unfold process, after_request.
  cbn [snd class_dict].
  apply (after_client_cached self (advance (suffix_length self) p)). exact Hok.
Qed.

Lemma loop_body_refusal (self : ShortUrl) (p : Process B) :
  refusal self p = None → refusal self (process (loop_body self p)) = None.
Proof. intros Hok. eapply refusal_cached, loop_body_cached, Hok. Qed.

Lemma loop_body_split (self : ShortUrl) (p : Process B) :
  loop_body self p =
    (lift_check (candidate self p) (probe self p), self, process (loop_body self p)).
Proof.
  rewrite <- loop_body_probe. rewrite <- (loop_body_receiver self p) at 3.
  destruct (loop_body self p) as [[r s] q]. reflexivity.
Qed.

(** ** Several passes *)

Lemma passes_receiver (n : nat) (self : ShortUrl) (p : Process B) :
  (passes n self p).1 = self.
Proof.
  revert p. induction n as [|n IH]; intros p; [reflexivity|].
  cbn [passes]. rewrite loop_body_receiver. apply IH.
Qed.

Lemma passes_S (n : nat) (self : ShortUrl) (p : Process B) :
  passes (S n) self p = passes n self (process (loop_body self p)).
Proof. cbn [passes]. rewrite loop_body_receiver. reflexivity. Qed.

Lemma passes_last (n : nat) (self : ShortUrl) (p : Process B) :
  passes (S n) self p = (self, process (loop_body self (passes n self p).2)).
Proof.
  revert p. induction n as [|n IH]; intros p.
  - cbn [passes]. rewrite loop_body_receiver. reflexivity.
  - rewrite passes_S, IH, passes_S. reflexivity.
Qed.

Lemma probe_at_S (n : nat) (self : ShortUrl) (p : Process B) :
  probe_at (S n) self p = probe_at n self (process (loop_body self p)).
Proof. unfold probe_at. rewrite passes_S. reflexivity. Qed.

Lemma probe_at_eq (n : nat) (self : ShortUrl) (p : Process B) :
  probe_at n self p = probe self (passes n self p).2.
Proof. unfold probe_at. rewrite passes_receiver. reflexivity. Qed.

(** ** The write *)

Lemma upload_object_eq (key native_url : string) (self : ShortUrl) (p : Process B) :
  refusal self p = None →
  upload_object key native_url self p =
    (reply_result (write_reply key native_url self p).1, self,
     after_request (write_request key native_url self p)
                   (write_reply key native_url self p).2 (after_client self p)).
Proof.
  intros Hok. unfold upload_object, upload_kwargs.
  unfold bind at 1. unfold bind at 1. unfold get_settings, ret.
  rewrite (bind_return _ _ _ _ _ _ _ (s3_client_ok self p Hok)).
  unfold client_put_object, write_reply, write_request.
  rewrite after_client_s3.
  destruct (put_object _ _ _) as [reply b']. reflexivity.
Qed.

Lemma upload_object_refused (key native_url : string) (self : ShortUrl) (p : Process B)
    (name : string) :
  refusal self p = Some name →
  upload_object key native_url self p = (Raise (BotoCoreError name), self, p).
Proof.
  intros Hno. unfold upload_object, upload_kwargs.
  unfold bind at 1. unfold bind at 1. unfold get_settings, ret.
  rewrite (bind_raise _ _ _ _ _ _ _ (s3_client_refused self p name Hno)).
  reflexivity.
Qed.

(** ** The loop *)

Lemma while_check_collide (k : nat) (self : ShortUrl) (p : Process B) :
  probe self p = Return true →
  while_check (S k) self p = while_check k self (process (loop_body self p)).
Proof.
  intros Hp. cbn [while_check]. unfold bind at 1.
  rewrite loop_body_split, Hp. reflexivity.
Qed.

Lemma while_check_absent (k : nat) (self : ShortUrl) (p : Process B) :
  probe self p = Return false →
  while_check (S k) self p =
    (Return (candidate self p), self, process (loop_body self p)).
Proof.
  intros Hp. cbn [while_check]. unfold bind at 1.
  rewrite loop_body_split, Hp. reflexivity.
Qed.

Lemma while_check_raise (k : nat) (self : ShortUrl) (p : Process B) (e : Exception) :
  probe self p = Raise e →
  while_check (S k) self p = (Raise e, self, process (loop_body self p)).
Proof.
  intros Hp. cbn [while_check]. unfold bind at 1.
  rewrite loop_body_split, Hp. reflexivity.
Qed.

(** As long as the probe reports a collision the loop goes round. *)
Lemma while_check_passes (n k : nat) (self : ShortUrl) (p : Process B) :
  (∀ i, (i < n)%nat → probe_at i self p = Return true) →
  while_check (n + k) self p = while_check k self (passes n self p).2.
Proof.
  revert p. induction n as [|n IH]; intros p Hcol; [reflexivity|].
  change (S n + k)%nat with (S (n + k)).
  rewrite while_check_collide by (apply (Hcol 0%nat); lia).
  rewrite passes_S. apply IH. intros i Hi.
  rewrite <- probe_at_S. apply Hcol. lia.
Qed.

(** ** generate *)

Lemma generate_after_loop (fuel : nat) (native_url key : string)
    (self : ShortUrl) (p p' : Process B) :
  while_check fuel self p = (Return key, self, p') →
  refusal self p' = None →
  generate fuel native_url self p =
    (finish (format_slash (cloudfront_distro (settings self)) key)
            (write_reply key native_url self p').1,
     self,
     after_request (write_request key native_url self p')
                   (write_reply key native_url self p').2 (after_client self p')).
Proof.
  intros Hloop Hok. unfold generate.
  rewrite (bind_return _ _ _ _ _ _ _ Hloop).
  unfold bind at 1. rewrite upload_object_eq by exact Hok.
  destruct (write_reply key native_url self p').1; reflexivity.
Qed.

Lemma generate_after_loop_refused (fuel : nat) (native_url key : string)
    (self : ShortUrl) (p p' : Process B) (name : string) :
  while_check fuel self p = (Return key, self, p') →
  refusal self p' = Some name →
  generate fuel native_url self p = (Raise (BotoCoreError name), self, p').
Proof.
  intros Hloop Hno. unfold generate.
  rewrite (bind_return _ _ _ _ _ _ _ Hloop).
  unfold bind at 1. rewrite (upload_object_refused _ _ _ _ name) by exact Hno.
  reflexivity.
Qed.

Lemma generate_loop_raise (fuel : nat) (native_url : string)
    (self : ShortUrl) (p p' : Process B) (e : Exception) :
  while_check fuel self p = (Raise e, self, p') →
  generate fuel native_url self p = (Raise e, self, p').
Proof. intros Hloop. unfold generate. apply bind_raise. exact Hloop. Qed.

Lemma generate_loop_looping (fuel : nat) (native_url : string)
    (self : ShortUrl) (p p' : Process B) :
  while_check fuel self p = (Looping, self, p') →
  generate fuel native_url self p = (Looping, self, p').
Proof. intros Hloop. unfold generate. apply bind_looping. exact Hloop. Qed.

(** The loop leaves through the first pass whose probe does not report
    a collision. *)
Lemma while_check_exit (n fuel : nat) (self : ShortUrl) (p : Process B) :
  (∀ i, (i < n)%nat → probe_at i self p = Return true) →
  probe_at n self p = Return false →
  (n < fuel)%nat →
  while_check fuel self p =
    (Return (candidate self (passes n self p).2), self, (passes (S n) self p).2).
Proof.
  intros Hcol Habs Hfuel.
  replace fuel with (n + S (fuel - S n))%nat by lia.
  rewrite while_check_passes by exact Hcol.
  rewrite probe_at_eq in Habs.
  rewrite while_check_absent by exact Habs.
  rewrite passes_last. reflexivity.
Qed.

Lemma while_check_fail (n fuel : nat) (self : ShortUrl) (p : Process B) (e : Exception) :
  (∀ i, (i < n)%nat → probe_at i self p = Return true) →
  probe_at n self p = Raise e →
  (n < fuel)%nat →
  while_check fuel self p = (Raise e, self, (passes (S n) self p).2).
Proof.
  intros Hcol Hraise Hfuel.
  replace fuel with (n + S (fuel - S n))%nat by lia.
  rewrite while_check_passes by exact Hcol.
  rewrite probe_at_eq in Hraise.
  rewrite while_check_raise with (e := e) by exact Hraise.
  rewrite passes_last. reflexivity.
Qed.

Lemma while_check_looping (n : nat) (self : ShortUrl) (p : Process B) :
  (∀ i, (i < n)%nat → probe_at i self p = Return true) →
  while_check n self p = (Looping, self, (passes n self p).2).
Proof.
  intros Hcol. replace n with (n + 0)%nat at 1 by lia.
  rewrite while_check_passes by exact Hcol. reflexivity.
Qed.

(** ** What reaches the store *)

Lemma loop_body_store (self : ShortUrl) (p : Process B) :
  refusal self p = None →
  s3 (process (loop_body self p)) = (serve (probe_request self p) (s3 p)).2.
Proof. intros Hok. rewrite (loop_body_ok self p Hok). reflexivity. Qed.

Lemma answered_S (n : nat) (self : ShortUrl) (p : Process B) :
  answered (S n) self p →
  (∃ b, probe self p = Return b) ∧ answered n self (process (loop_body self p)).
Proof.
  intros Hans. split.
  - apply (Hans 0%nat). lia.
  - intros i Hi. rewrite <- probe_at_S. apply Hans. lia.
Qed.

Lemma passes_refusal_keep (n : nat) (self : ShortUrl) (p : Process B) :
  refusal self p = None → refusal self (passes n self p).2 = None.
Proof.
  revert p. induction n as [|n IH]; intros p Hok; [exact Hok|].
  rewrite passes_S. apply IH, loop_body_refusal, Hok.
Qed.

(** After a probe that reported something, a client is cached. *)
Lemma passes_refusal (n : nat) (self : ShortUrl) (p : Process B) :
  answered (S n) self p → refusal self (passes (S n) self p).2 = None.
Proof.
  intros Hans. apply answered_S in Hans as [[b Hb] _].
  apply probe_return in Hb as [Hok _].
  rewrite passes_S. apply passes_refusal_keep, loop_body_refusal, Hok.
Qed.

Lemma passes_trace (n : nat) (self : ShortUrl) (p : Process B) :
  answered n self p →
  ∃ hs, requests (passes n self p).2 = requests p ++ hs
        ∧ length hs = n
        ∧ Forall (λ r, is_head r = true) hs
        ∧ s3 (passes n self p).2 = replay hs (s3 p).
Proof.
  revert p. induction n as [|n IH]; intros p Hans.
  - exists []. rewrite app_nil_r. repeat split. constructor.
  - apply answered_S in Hans as [[b Hb] Hans].
    apply probe_return in Hb as [Hok _].
    destruct (IH (process (loop_body self p)) Hans) as (hs & Hreq & Hlen & Hall & Hs3).
    exists (probe_request self p :: hs).
    rewrite passes_S, Hreq, Hs3, loop_body_requests, loop_body_store by exact Hok.
    rewrite <- app_assoc. repeat split.
    + simpl. congruence.
    + constructor; [reflexivity|assumption].
Qed.

Lemma colliding_answered (n : nat) (self : ShortUrl) (p : Process B) :
  colliding n self p → answered n self p.
Proof. intros Hcol i Hi. exists true. apply Hcol, Hi. Qed.

Lemma colliding_answered_S (n : nat) (self : ShortUrl) (p : Process B) (b : bool) :
  colliding n self p → probe_at n self p = Return b → answered (S n) self p.
Proof.
  intros Hcol Hb i Hi. destruct (decide (i = n)) as [->|Hne]; [eauto|].
  exists true. apply Hcol. lia.
Qed.

(** A run that meets an "absent" answer after [n] collisions. *)
Lemma generate_exit_eq (n fuel : nat) (native_url : string)
    (self : ShortUrl) (p : Process B) :
  colliding n self p →
  probe_at n self p = Return false →
  (n < fuel)%nat →
  generate fuel native_url self p =
    (let key := candidate self (passes n self p).2 in
     let p' := (passes (S n) self p).2 in
     (finish (format_slash (cloudfront_distro (settings self)) key)
             (write_reply key native_url self p').1,
      self,
      after_request (write_request key native_url self p')
                    (write_reply key native_url self p').2 (after_client self p'))).
Proof.
  intros Hcol Habs Hfuel. cbv zeta. apply generate_after_loop.
  - apply while_check_exit; assumption.
  - eapply passes_refusal, colliding_answered_S; eassumption.
Qed.

Lemma probes_heads (hs : list Request) :
  Forall (λ r, is_head r = true) hs → probes hs = hs ∧ writes hs = [].
Proof.
  induction 1 as [|r hs Hr _ [IHp IHw]]; [split; reflexivity|].
  unfold probes, writes in *. split.
  - rewrite filter_cons_True by exact Hr. congruence.
  - rewrite filter_cons_False; [exact IHw|].
    destruct r; simpl in *; congruence.
Qed.

Lemma probes_app (l1 l2 : list Request) : probes (l1 ++ l2) = probes l1 ++ probes l2.
Proof. apply filter_app. Qed.

Lemma writes_app (l1 l2 : list Request) : writes (l1 ++ l2) = writes l1 ++ writes l2.
Proof. apply filter_app. Qed.

(** ** The claims about the loop *)

(** C1: when the probe reports "exists" for the first [n] candidate keys
    and "absent" for the next one, [generate] sends exactly [n + 1]
    existence probes and then exactly one write; with [n = 0] this is the
    probe that reports "absent" at once: one probe and one write. *)
Theorem generate_probes_then_writes (n fuel : nat) (native_url : string)
    (self : ShortUrl) (p : Process B) :
  colliding n self p →
  probe_at n self p = Return false →
  (n < fuel)%nat →
  ∃ hs w,
    requests (process (generate fuel native_url self p)) = requests p ++ hs ++ [w]
    ∧ Forall (λ r, is_head r = true) hs
    ∧ is_put w = true
    ∧ length (probes (hs ++ [w])) = S n
    ∧ length (writes (hs ++ [w])) = 1%nat.
Proof.
  intros Hcol Habs Hfuel.
  destruct (passes_trace (S n) self p) as (hs & Hreq & Hlen & Hall & _).
  { eapply colliding_answered_S; eassumption. }
  set (key := candidate self (passes n self p).2).
  set (p' := (passes (S n) self p).2) in *.
  exists hs, (write_request key native_url self p').
  rewrite (generate_exit_eq n fuel native_url self p Hcol Habs Hfuel).
  cbv zeta. fold key p'.
  destruct (probes_heads hs Hall) as [Hp Hw].
  repeat split.
  - unfold process, after_request. simpl.
    rewrite after_client_requests, Hreq, <- app_assoc. reflexivity.
  - exact Hall.
  - rewrite probes_app, Hp. simpl. rewrite app_nil_r. exact Hlen.
  - rewrite writes_app, Hw. reflexivity.
Qed.

Lemma normalize_false (reply : Reply) :
  normalize reply = Return false → reply = absent ∨ reply = denied.
Proof.
  destruct reply as [|e]; simpl; [discriminate|].
  destruct e as [code| | | |]; simpl; try discriminate.
  destruct (String.eqb_spec code "404") as [->|_]; [left; reflexivity|].
  destruct (String.eqb_spec code "403") as [->|_]; [right; reflexivity|].
  discriminate.
Qed.

(** C2: [exists_s3_key] returns true when the metadata fetch succeeds,
    false when the store answers with error code 404 or 403, and raises
    again, unchanged, any other error of the store.  The fetch goes
    through the client [self.s3_client] yields; when no client can be
    had, there is no fetch, and the error of [boto3.client] is raised
    like any other. *)
Theorem exists_s3_key_normalizes (key : string) (self : ShortUrl) (p : Process B) :
  let r := exists_s3_key key self p in
  (∀ c p1, s3_client self p = (Return c, self, p1) →
     let reply := (head_object c (bucket (settings self)) key (s3 p1)).1 in
     (reply = Success → outcome r = Return true)
     ∧ (reply = Failure (ClientError "404") → outcome r = Return false)
     ∧ (reply = Failure (ClientError "403") → outcome r = Return false)
     ∧ (∀ e, reply = Failure e → e ≠ ClientError "404" → e ≠ ClientError "403" →
             outcome r = Raise e)
     ∧ requests (process r) = requests p ++ [HeadObject c (bucket (settings self)) key])
  ∧ (∀ e, outcome (s3_client self p) = Raise e →
          outcome r = Raise e ∧ requests (process r) = requests p)
  ∧ (outcome r = Return false →
     ∃ c, requests (process r) = requests p ++ [HeadObject c (bucket (settings self)) key]
          ∧ ((head_object c (bucket (settings self)) key (s3 p)).1 = absent
             ∨ (head_object c (bucket (settings self)) key (s3 p)).1 = denied)).
Proof.
  cbv zeta. destruct (refusal self p) as [name|] eqn:Hr.
  - rewrite (s3_client_refused self p name Hr), (exists_s3_key_refused key self p name Hr).
    split; [intros c p1 [=]|]. split.
    + intros e [= <-]. split; reflexivity.
    + intros [=].
  - rewrite (s3_client_ok self p Hr), (exists_s3_key_eq key self p Hr). cbv zeta.
    unfold outcome, process. cbn [fst snd]. split; [|split].
    + intros c p1 [= <- <-]. rewrite after_client_s3.
      unfold after_request. cbn [requests]. rewrite after_client_requests.
      repeat split.
      * intros ->. reflexivity.
      * intros ->. reflexivity.
      * intros ->. reflexivity.
      * intros e -> H404 H403. destruct e as [code| | | |]; simpl; try reflexivity.
        destruct (String.eqb_spec code "404") as [->|_]; [congruence|].
        destruct (String.eqb_spec code "403") as [->|_]; [congruence|].
        reflexivity.
    + intros e [=].
    + intros Hfalse. exists (client_in_use self p).
      unfold after_request. cbn [requests]. rewrite after_client_requests.
      split; [reflexivity|]. apply normalize_false. exact Hfalse.
Qed.

Lemma normalize_raise (reply : Reply) (e : Exception) :
  normalize reply = Raise e →
  reply = Failure e ∧ e ≠ ClientError "404" ∧ e ≠ ClientError "403".
Proof.
  destruct reply as [|e']; simpl; [discriminate|].
  destruct e' as [code| | | |]; simpl;
    try (intros [= <-]; repeat split; discriminate).
  destruct (String.eqb_spec code "404") as [->|H404]; [discriminate|].
  destruct (String.eqb_spec code "403") as [->|H403]; [discriminate|].
  intros [= <-]. repeat split; congruence.
Qed.

Lemma probe_raise_cases (self : ShortUrl) (p : Process B) (e : Exception) :
  probe self p = Raise e →
  (refusal self p = None ∧ (probe_reply self p).1 = Failure e
   ∧ e ≠ ClientError "404" ∧ e ≠ ClientError "403")
  ∨ (∃ name, refusal self p = Some name ∧ e = BotoCoreError name).
Proof.
  rewrite probe_eq. destruct (refusal self p) as [name|].
  - intros [= <-]. right. eauto.
  - intros Hraise. left. apply normalize_raise in Hraise. tauto.
Qed.

Lemma replay_snoc (hs : list Request) (rq : Request) (b : B) :
  replay (hs ++ [rq]) b = (serve rq (replay hs b)).2.
Proof. unfold replay. rewrite fold_left_app. reflexivity. Qed.

(** The pass after [n] answered probes, when its probe raises: either
    the store answered a request with the error, or no client could be
    had, which can only happen before any probe was answered. *)
Lemma failing_pass (n : nat) (self : ShortUrl) (p : Process B) (e : Exception) :
  answered n self p →
  probe_at n self p = Raise e →
  ∃ hs, requests (passes n self p).2 = requests p ++ hs
        ∧ length hs = n
        ∧ Forall (λ r, is_head r = true) hs
        ∧ s3 (passes n self p).2 = replay hs (s3 p)
        ∧ ((e ≠ ClientError "404" ∧ e ≠ ClientError "403"
            ∧ requests (passes (S n) self p).2
              = requests p ++ hs ++ [probe_request self (passes n self p).2]
            ∧ s3 (passes (S n) self p).2
              = replay (hs ++ [probe_request self (passes n self p).2]) (s3 p)
            ∧ (serve (probe_request self (passes n self p).2) (replay hs (s3 p))).1
              = Failure e)
           ∨ (n = 0%nat ∧ (∃ name, refusal self p = Some name ∧ e = BotoCoreError name)
              ∧ requests (passes (S n) self p).2 = requests p
              ∧ s3 (passes (S n) self p).2 = s3 p)).
Proof.
  intros Hans Hraise.
  destruct (passes_trace n self p Hans) as (hs & Hreq & Hlen & Hall & Hs3).
  exists hs. split; [exact Hreq|]. split; [exact Hlen|]. split; [exact Hall|].
  split; [exact Hs3|].
  rewrite probe_at_eq in Hraise. rewrite passes_last. cbn [snd].
  set (pn := (passes n self p).2) in *.
  destruct (probe_raise_cases self pn e Hraise)
    as [(Hok & Hreply & H404 & H403)|(name & Hno & ->)].
  - left. rewrite loop_body_requests, loop_body_store, replay_snoc by exact Hok.
    rewrite Hreq, <- Hs3, <- app_assoc. repeat split; assumption.
  - right. destruct n as [|n].
    + rewrite (loop_body_refused self pn name Hno). subst pn. cbn. eauto 10.
    + subst pn. rewrite (passes_refusal n self p Hans) in Hno. discriminate.
Qed.

(** C3: when the probe raises an error (one that is not normalized to
    "absent"), [generate] raises that error and sends no write: all it
    has sent are probes, the store is what serving those probes made of
    it, and no short URL is returned.  The probes sent are one more than
    the collisions, unless the error is that of [boto3.client] for want
    of a client, at the first probe, when nothing at all was sent. *)
Theorem generate_propagates_probe_error (n fuel : nat) (native_url : string)
    (self : ShortUrl) (p : Process B) (e : Exception) :
  colliding n self p →
  probe_at n self p = Raise e →
  (n < fuel)%nat →
  let r := generate fuel native_url self p in
  outcome r = Raise e
  ∧ e ≠ ClientError "404" ∧ e ≠ ClientError "403"
  ∧ ∃ hs, requests (process r) = requests p ++ hs
          ∧ writes hs = []
          ∧ Forall (λ rq, is_head rq = true) hs
          ∧ s3 (process r) = replay (probes hs) (s3 p)
          ∧ (length hs = S n
             ∨ (n = 0%nat ∧ hs = [] ∧ ∃ name, e = BotoCoreError name)).
Proof.
  intros Hcol Hraise Hfuel. cbv zeta.
  rewrite (generate_loop_raise fuel native_url self p (passes (S n) self p).2 e)
    by (apply while_check_fail; assumption).
  split; [reflexivity|]. unfold process. cbn [snd].
  destruct (failing_pass n self p e (colliding_answered n self p Hcol) Hraise)
    as (hs & _ & Hlen & Hall & _ &
        [(H404 & H403 & Hreq & Hs3 & _)|(-> & (name & _ & ->) & Hreq & Hs3)]).
  - split; [exact H404|]. split; [exact H403|].
    assert (Hall' : Forall (λ r, is_head r = true)
                      (hs ++ [probe_request self (passes n self p).2])).
    { apply Forall_app. split; [exact Hall|]. constructor; [reflexivity|constructor]. }
    destruct (probes_heads _ Hall') as [Hp Hw].
    exists (hs ++ [probe_request self (passes n self p).2]).
    rewrite Hp, Hw, length_app, Hlen. cbn.
    repeat split; try assumption. left. lia.
  - split; [discriminate|]. split; [discriminate|].
    exists []. rewrite app_nil_r. cbn.
    split; [exact Hreq|]. split; [reflexivity|]. split; [constructor|].
    split; [exact Hs3|]. right. eauto.
Qed.

Lemma colliding_S (n : nat) (self : ShortUrl) (p : Process B) :
  probe self p = Return true →
  colliding n self (process (loop_body self p)) →
  colliding (S n) self p.
Proof.
  intros Hp Hcol [|i] Hi.
  - exact Hp.
  - rewrite probe_at_S. apply Hcol. lia.
Qed.

Lemma colliding_le (n m : nat) (self : ShortUrl) (p : Process B) :
  (m ≤ n)%nat → colliding n self p → colliding m self p.
Proof. intros Hle Hcol i Hi. apply Hcol. lia. Qed.

(** A loop that leaves with a key has met an "absent" answer. *)
Lemma while_check_return_inv (fuel : nat) (key : string)
    (self self' : ShortUrl) (p p' : Process B) :
  while_check fuel self p = (Return key, self', p') →
  ∃ n, (n < fuel)%nat ∧ colliding n self p ∧ probe_at n self p = Return false.
Proof.
  revert p. induction fuel as [|fuel IH]; intros p Hret; [discriminate|].
  cbn [while_check] in Hret. unfold bind at 1 in Hret.
  rewrite loop_body_split in Hret.
  destruct (probe self p) as [[|]| |] eqn:Hp; simpl in Hret; try discriminate.
  - destruct (IH _ Hret) as (n & Hlt & Hcol & Habs).
    exists (S n). split; [lia|]. split.
    + apply colliding_S; assumption.
    + rewrite probe_at_S. exact Habs.
  - exists 0%nat. split; [lia|]. split.
    + intros i Hi. lia.
    + exact Hp.
Qed.

Lemma finish_not_looping (short_url : string) (reply : Reply) :
  finish short_url reply ≠ Looping.
Proof. destruct reply; discriminate. Qed.

Lemma generate_exit (n fuel : nat) (native_url : string)
    (self : ShortUrl) (p : Process B) :
  colliding n self p →
  probe_at n self p = Return false →
  (n < fuel)%nat →
  let key := candidate self (passes n self p).2 in
  let p' := (passes (S n) self p).2 in
  outcome (generate fuel native_url self p) =
    finish (format_slash (cloudfront_distro (settings self)) key)
           (write_reply key native_url self p').1.
Proof.
  intros Hcol Habs Hfuel. cbv zeta.
  rewrite (generate_exit_eq n fuel native_url self p Hcol Habs Hfuel).
  reflexivity.
Qed.

(** A call that returns a short URL went through an "absent" answer and
    returns the key it then tried. *)
Lemma generate_return_inv (fuel : nat) (native_url short_url : string)
    (self : ShortUrl) (p : Process B) :
  outcome (generate fuel native_url self p) = Return short_url →
  ∃ n, (n < fuel)%nat ∧ colliding n self p ∧ probe_at n self p = Return false
       ∧ short_url = format_slash (cloudfront_distro (settings self))
                                  (candidate self (passes n self p).2).
Proof.
  intros Hret.
  destruct (while_check fuel self p) as [[[key| e |] self'] p'] eqn:Hloop.
  - destruct (while_check_return_inv _ _ _ _ _ _ Hloop) as (n & Hlt & Hcol & Habs).
    exists n. repeat split; try assumption.
    rewrite (generate_exit n fuel native_url self p Hcol Habs Hlt) in Hret.
    cbv zeta in Hret.
    destruct (write_reply _ _ _ _).1; simpl in Hret; congruence.
  - unfold generate in Hret. rewrite (bind_raise _ _ _ _ _ _ _ Hloop) in Hret.
    discriminate.
  - unfold generate in Hret. rewrite (bind_looping _ _ _ _ _ _ Hloop) in Hret.
    discriminate.
Qed.

(** C4: the loop of [generate] leaves (towards the write and the
    return) exactly when the probe, after finitely many "exists",
    reports "absent"; it then takes one pass more than there were
    collisions, whatever larger bound is allowed; and no number of passes
    is a maximum: after any [fuel] colliding probes the loop has sent
    [fuel] probes and is still going round. *)
Theorem generate_terminates_iff_absent (native_url : string)
    (self : ShortUrl) (p : Process B) :
  ((∃ fuel key p', while_check fuel self p = (Return key, self, p'))
   ↔ (∃ n, colliding n self p ∧ probe_at n self p = Return false))
  ∧ (∀ n, colliding n self p → probe_at n self p = Return false →
       ∀ fuel, outcome (generate fuel native_url self p) = Looping ↔ (fuel ≤ n)%nat)
  ∧ (∀ fuel, colliding fuel self p →
       generate fuel native_url self p = (Looping, self, (passes fuel self p).2)
       ∧ ∃ hs, requests (passes fuel self p).2 = requests p ++ hs
               ∧ length hs = fuel
               ∧ Forall (λ r, is_head r = true) hs).
Proof.
  split; [|split].
  - split.
    + intros (fuel & key & p' & Hloop).
      destruct (while_check_return_inv _ _ _ _ _ _ Hloop) as (n & _ & Hcol & Habs).
      exists n. split; assumption.
    + intros (n & Hcol & Habs).
      exists (S n), (candidate self (passes n self p).2), (passes (S n) self p).2.
      apply while_check_exit; [assumption|assumption|lia].
  - intros n Hcol Habs fuel. split.
    + intros Hloop. destruct (Nat.le_gt_cases fuel n) as [Hle|Hgt]; [exact Hle|].
      rewrite (generate_exit n fuel native_url self p Hcol Habs Hgt) in Hloop.
      cbv zeta in Hloop. apply finish_not_looping in Hloop. destruct Hloop.
    + intros Hle.
      rewrite (generate_loop_looping fuel native_url self p (passes fuel self p).2);
        [reflexivity|].
      apply while_check_looping. eapply colliding_le; eassumption.
  - intros fuel Hcol. split.
    + apply generate_loop_looping, while_check_looping, Hcol.
    + destruct (passes_trace fuel self p (colliding_answered _ _ _ Hcol))
        as (hs & Hreq & Hlen & Hall & _).
      exists hs. auto.
Qed.

(** ** The shape of the short URL *)

Lemma alphabet_Forall (s : string) :
  Forall (λ c, In c (chars alphabet)) (chars s) →
  Forall (λ c, lower_or_digit c = true) (chars s).
Proof. intros Hall. eapply Forall_impl; [exact Hall|]. exact alphabet_class. Qed.

(** The URL a returning call gives: host, prefix and a fresh suffix. *)
Lemma generate_return_shape (fuel : nat) (native_url short_url : string)
    (self : ShortUrl) (p : Process B) :
  outcome (generate fuel native_url self p) = Return short_url →
  ∃ suffix,
    short_url = cloudfront_distro (settings self) +:+ "/"
                +:+ prefix (settings self) +:+ "/" +:+ suffix
    ∧ String.length suffix = suffix_length self
    ∧ Forall (λ c, In c (chars alphabet)) (chars suffix).
Proof.
  intros Hret.
  destruct (generate_return_inv _ _ _ _ _ Hret) as (n & _ & _ & _ & ->).
  destruct (candidate_advance self (passes n self p).2) as (s & _ & -> & Hlen & Hall).
  exists s. repeat split; assumption.
Qed.

(** C5: for a valid configuration, the string [generate] returns is
    [cloudfront_distro + "/" + prefix + "/" + suffix] with a suffix of
    exactly [random_digits] characters, so its length is
    [len(cloudfront_distro) + 1 + len(prefix) + 1 + random_digits]. *)
Theorem generate_length (fuel : nat) (native_url short_url : string)
    (self : ShortUrl) (p : Process B) :
  0 < random_digits (settings self) →
  outcome (generate fuel native_url self p) = Return short_url →
  ∃ suffix,
    short_url = cloudfront_distro (settings self) +:+ "/"
                +:+ prefix (settings self) +:+ "/" +:+ suffix
    ∧ Z.of_nat (String.length suffix) = random_digits (settings self)
    ∧ Z.of_nat (String.length short_url) =
        Z.of_nat (String.length (cloudfront_distro (settings self))) + 1
        + Z.of_nat (String.length (prefix (settings self))) + 1
        + random_digits (settings self).
Proof.
  intros Hpos Hret.
  destruct (generate_return_shape _ _ _ _ _ Hret) as (suffix & -> & Hlen & _).
  exists suffix. unfold suffix_length in Hlen.
  split; [reflexivity|]. split; [lia|].
  rewrite !length_append. change (String.length "/") with 1%nat. lia.
Qed.

(** C6, as the code has it: splitting the returned string on "/" gives
    the segments of the distribution host, then the segments of the
    prefix, then a suffix of exactly [random_digits] characters of
    [a-z0-9]; the segments number 3 plus the slashes of the host and of
    the prefix, hence exactly 3 precisely when neither contains "/". *)
Theorem generate_segments (fuel : nat) (native_url short_url : string)
    (self : ShortUrl) (p : Process B) :
  0 < random_digits (settings self) →
  outcome (generate fuel native_url self p) = Return short_url →
  ∃ suffix,
    split "/" short_url =
      split "/" (cloudfront_distro (settings self))
      ++ split "/" (prefix (settings self)) ++ [suffix]
    ∧ Z.of_nat (String.length suffix) = random_digits (settings self)
    ∧ Forall (λ c, lower_or_digit c = true) (chars suffix)
    ∧ length (split "/" short_url) =
        (3 + occurrences "/" (cloudfront_distro (settings self))
           + occurrences "/" (prefix (settings self)))%nat
    ∧ (length (split "/" short_url) = 3%nat
       ↔ occurrences "/" (cloudfront_distro (settings self)) = 0%nat
         ∧ occurrences "/" (prefix (settings self)) = 0%nat).
Proof.
  intros Hpos Hret.
  destruct (generate_return_shape _ _ _ _ _ Hret) as (suffix & -> & Hlen & Hall).
  apply alphabet_Forall in Hall.
  exists suffix. unfold suffix_length in Hlen.
  assert (Hsplit :
    split "/" (cloudfront_distro (settings self) +:+ "/"
               +:+ prefix (settings self) +:+ "/" +:+ suffix) =
    split "/" (cloudfront_distro (settings self))
    ++ split "/" (prefix (settings self)) ++ [suffix]).
  { change ("/" +:+ prefix (settings self) +:+ "/" +:+ suffix)
      with (String "/" (prefix (settings self) +:+ String "/" suffix)).
    rewrite !split_append.
    rewrite (split_single "/" suffix)
      by (apply occurrences_outside; [reflexivity|exact Hall]).
    reflexivity. }
  rewrite Hsplit, !length_app, !split_length. simpl.
  repeat split; try assumption; lia.
Qed.

(** C7: for a positive [random_digits], [generate_random] produces a
    string of exactly that many characters, each one of the 36 symbols
    made of the 26 lowercase letters and the 10 digits. *)
Theorem generate_random_alphabet (self : ShortUrl) (p : Process B) :
  0 < random_digits (settings self) →
  ∃ s, outcome (generate_random self p) = Return s
       ∧ Z.of_nat (String.length s) = random_digits (settings self)
       ∧ Forall (λ c, In c (chars alphabet)) (chars s)
       ∧ Forall (λ c, lower_or_digit c = true) (chars s)
       ∧ chars alphabet = chars ascii_lowercase ++ chars digits
       ∧ length (chars ascii_lowercase) = 26%nat
       ∧ length (chars digits) = 10%nat
       ∧ NoDup (chars alphabet).
Proof.
  intros Hpos.
  destruct (generate_random_eq self p) as (s & Hs & Hlen & Hall).
  exists s. unfold suffix_length in Hlen. rewrite Hs.
  split; [reflexivity|]. split; [lia|]. split; [exact Hall|].
  split; [apply alphabet_Forall; exact Hall|].
  split; [reflexivity|]. split; [reflexivity|]. split; [reflexivity|].
  apply (bool_decide_unpack _). vm_compute. exact I.
Qed.


(** ** The settings object *)

Lemma while_check_receiver (fuel : nat) (self : ShortUrl) (p : Process B) :
  receiver (while_check fuel self p) = self.
Proof.
  revert p. induction fuel as [|fuel IH]; intros p; [reflexivity|].
  cbn [while_check]. unfold bind at 1. rewrite loop_body_split.
  destruct (probe self p) as [[|]| |]; simpl; [apply IH|reflexivity..].
Qed.

Lemma generate_receiver (fuel : nat) (native_url : string)
    (self : ShortUrl) (p : Process B) :
  receiver (generate fuel native_url self p) = self.
Proof.
  pose proof (while_check_receiver fuel self p) as Hrecv.
  destruct (while_check fuel self p) as [[r self'] p'] eqn:Hloop.
  unfold receiver in Hrecv. simpl in Hrecv. subst self'.
  destruct r as [key|e|].
  - destruct (refusal self p') as [name|] eqn:Hr.
    + rewrite (generate_after_loop_refused _ _ _ _ _ _ name Hloop Hr). reflexivity.
    + rewrite (generate_after_loop _ _ _ _ _ _ Hloop Hr). reflexivity.
  - rewrite (generate_loop_raise _ _ _ _ _ _ Hloop). reflexivity.
  - rewrite (generate_loop_looping _ _ _ _ _ Hloop). reflexivity.
Qed.

(** C8, as the code has it: [Settings] is a plain dataclass, so an
    assignment to any of its fields succeeds and stores the value; but
    no operation of [ShortUrl] makes one: the constructor keeps the
    object it was given, and [s3_client], [generate_random],
    [exists_s3_key], [upload_kwargs], [upload_object] and [generate]
    return with the receiver's settings as they found them. *)
Theorem ShortUrl_never_assigns_settings (self : ShortUrl) (p : Process B) :
  (∀ a s, Settings_setattr a s = Return (assign a s))
  ∧ (∀ s, settings (ShortUrl_init s) = s)
  ∧ settings (receiver (s3_client self p)) = settings self
  ∧ settings (receiver (generate_random self p)) = settings self
  ∧ (∀ key, settings (receiver (exists_s3_key key self p)) = settings self)
  ∧ (∀ key native_url,
       settings (receiver (upload_kwargs key native_url self p)) = settings self)
  ∧ (∀ key native_url,
       settings (receiver (upload_object key native_url self p)) = settings self)
  ∧ (∀ fuel native_url,
       settings (receiver (generate fuel native_url self p)) = settings self).
Proof.
  repeat split.
  - rewrite s3_client_eq. reflexivity.
  - destruct (generate_random_eq self p) as (s & -> & _). reflexivity.
  - intros key. destruct (refusal self p) as [name|] eqn:Hr.
    + rewrite (exists_s3_key_refused key self p name Hr). reflexivity.
    + rewrite (exists_s3_key_eq key self p Hr). reflexivity.
  - intros key native_url. destruct (refusal self p) as [name|] eqn:Hr.
    + rewrite (upload_object_refused key native_url self p name Hr). reflexivity.
    + rewrite (upload_object_eq key native_url self p Hr). reflexivity.
  - intros fuel native_url. rewrite generate_receiver. reflexivity.
Qed.

(** ** The client cached on the class *)




Lemma client_in_use_hit (c : Client) (self : ShortUrl) (p : Process B) :
  class_dict p !! cache_name = Some c → client_in_use self p = c.
Proof. intros Hc. unfold client_in_use. rewrite Hc. reflexivity. Qed.









End Facts.

(** * Further properties *)

Section Further.

Context {B : Type} `{!S3Service B}.

Local Open Scope method_scope.

(** ** The cached-property helpers *)

Lemma make_cached_property_hit (func_name : string) (func : M B Client)
    (cache_on_class : bool) (self : ShortUrl) (p : Process B) (c : Client) :
  lookup_attr (cache_target cache_on_class) ("_cache_" +:+ func_name) self p = Some c →
  make_cached_property func_name func cache_on_class self p = (Return c, self, p).
Proof.
  intros Hhit. unfold make_cached_property. fold (cache_target cache_on_class).
  unfold bind at 1. unfold hasattr at 1. rewrite Hhit.
  rewrite bool_decide_eq_true_2 by eauto. cbn [negb].
  unfold bind, ret, getattr. rewrite Hhit. reflexivity.
Qed.

Lemma lookup_attr_setattr (obj : Target) (name : string) (v : Client)
    (self : ShortUrl) (p : Process B) :
  lookup_attr obj name (receiver (setattr obj name v self p))
              (process (setattr obj name v self p)) = Some v.
Proof.
  destruct obj; unfold setattr, receiver, process, lookup_attr; cbn.
  - apply lookup_insert_eq.
  - rewrite lookup_insert_eq. reflexivity.
Qed.

Lemma make_cached_property_miss (func_name : string) (func : M B Client)
    (cache_on_class : bool) (self : ShortUrl) (p : Process B) :
  lookup_attr (cache_target cache_on_class) ("_cache_" +:+ func_name) self p = None →
  make_cached_property func_name func cache_on_class self p =
    match func self p with
    | (Return v, self', p') =>
        (Return v,
         receiver (setattr (cache_target cache_on_class) ("_cache_" +:+ func_name) v self' p'),
         process (setattr (cache_target cache_on_class) ("_cache_" +:+ func_name) v self' p'))
    | other => other
    end.
Proof.
  intros Hmiss. unfold make_cached_property. fold (cache_target cache_on_class).
  unfold bind at 1. unfold hasattr at 1. rewrite Hmiss.
  rewrite bool_decide_eq_false_2 by (intros [? ?]; discriminate). cbn [negb].
  unfold bind at 1. unfold bind at 1.
  destruct (func self p) as [[[v|e|] self'] p']; try reflexivity.
  pose proof (lookup_attr_setattr (cache_target cache_on_class)
                ("_cache_" +:+ func_name) v self' p') as Hset.
  destruct (setattr _ _ v self' p') as [[[[]|e|] self2] p2] eqn:Hsetattr;
    try (destruct (cache_target cache_on_class); discriminate).
  unfold receiver, process in Hset. cbn [fst snd] in Hset.
  unfold getattr. rewrite Hset. reflexivity.
Qed.

(** X1: a cached property is computed once.  When an access returns a
    value, the next access returns the same value and leaves the
    receiver and the process as they are: the wrapped function is not
    run again.  This holds for both decorators and every wrapped
    function. *)
Theorem make_cached_property_once (func_name : string) (func : M B Client)
    (cache_on_class : bool) (self self1 : ShortUrl) (p p1 : Process B) (v : Client) :
  make_cached_property func_name func cache_on_class self p = (Return v, self1, p1) →
  make_cached_property func_name func cache_on_class self1 p1 = (Return v, self1, p1).
Proof.
  intros Hfirst. apply make_cached_property_hit.
  destruct (lookup_attr (cache_target cache_on_class) ("_cache_" +:+ func_name) self p)
    as [c|] eqn:Hlook.
  - rewrite (make_cached_property_hit _ func _ _ _ _ Hlook) in Hfirst.
    injection Hfirst as <- <- <-. exact Hlook.
  - rewrite (make_cached_property_miss _ func _ _ _ Hlook) in Hfirst.
    destruct (func self p) as [[[v0|e|] self'] p']; try discriminate.
    injection Hfirst as <- <- <-. apply lookup_attr_setattr.
Qed.

(** X2: a failed computation is not cached.  When nothing is cached
    and the wrapped function raises, the property raises the same
    exception and stores nothing: the receiver and the process are as
    the function left them.  An access from that state runs the
    function again, and returns what it then returns. *)
Theorem make_cached_property_failure (func_name : string) (func : M B Client)
    (cache_on_class : bool) (self self' self2 : ShortUrl) (p p' p2 : Process B)
    (e : Exception) (v : Client) :
  lookup_attr (cache_target cache_on_class) ("_cache_" +:+ func_name) self p = None →
  func self p = (Raise e, self', p') →
  make_cached_property func_name func cache_on_class self p = (Raise e, self', p')
  ∧ (lookup_attr (cache_target cache_on_class) ("_cache_" +:+ func_name) self' p' = None →
     func self' p' = (Return v, self2, p2) →
     outcome (make_cached_property func_name func cache_on_class self' p') = Return v).
Proof.
  intros Hmiss Hraise. split.
  - rewrite (make_cached_property_miss _ func _ _ _ Hmiss), Hraise. reflexivity.
  - intros Hmiss' Hret.
    rewrite (make_cached_property_miss _ func _ _ _ Hmiss'), Hret. reflexivity.
Qed.

(** X3: where the value is kept.  On a miss with a wrapped function
    that returns [v], [cached_property] records [v] in the instance
    dictionary and leaves the class as the function left it, so another
    instance does not see it; [class_cached_property] records [v] on
    the class and leaves the instance as the function left it, so every
    instance sees it. *)
Theorem cached_on_instance_or_class (func_name : string) (func : M B Client)
    (self self' other : ShortUrl) (p p' : Process B) (v : Client) :
  lookup_attr OnInstance ("_cache_" +:+ func_name) self p = None →
  func self p = (Return v, self', p') →
  let name := "_cache_" +:+ func_name in
  let ri := cached_property func_name func self p in
  let rc := class_cached_property func_name func self p in
  outcome ri = Return v
  ∧ instance_dict (receiver ri) !! name = Some v
  ∧ class_dict (process ri) = class_dict p'
  ∧ lookup_attr OnInstance name other (process ri)
    = lookup_attr OnInstance name other p'
  ∧ outcome rc = Return v
  ∧ receiver rc = self'
  ∧ class_dict (process rc) !! name = Some v
  ∧ (instance_dict other !! name = None →
     lookup_attr OnInstance name other (process rc) = Some v).
Proof.
  intros Hmiss Hfunc. cbv zeta.
  assert (Hclass : lookup_attr OnClass ("_cache_" +:+ func_name) self p = None).
  { unfold lookup_attr in *. destruct (instance_dict self !! _); [discriminate|exact Hmiss]. }
  unfold cached_property, class_cached_property.
  rewrite (make_cached_property_miss _ func false _ _ Hmiss).
  rewrite (make_cached_property_miss _ func true _ _ Hclass).
  rewrite Hfunc. unfold outcome, receiver, process, setattr, lookup_attr. cbn.
  repeat split.
  - apply lookup_insert_eq.
  - apply lookup_insert_eq.
  - intros ->. apply lookup_insert_eq.
Qed.

(** ** The random suffix, draw by draw *)

Lemma choice_alphabet_get (self : ShortUrl) (p : Process B) :
  ∃ c, choice alphabet self p = (Return c, self, advance 1 p)
       ∧ String.get (urandom p (drawn p) mod String.length alphabet) alphabet = Some c.
Proof.
  destruct (alphabet_get (urandom p (drawn p) mod 36)) as (c & Hget).
  { apply Nat.mod_upper_bound. lia. }
  exists c. change (String.length alphabet) with 36%nat. split; [|exact Hget].
  unfold choice, bind, randbelow.
  change (String.length alphabet) with 36%nat.
  rewrite Hget. reflexivity.
Qed.

Lemma join_choices_get (n : nat) (self : ShortUrl) (p : Process B) :
  ∃ s, join_choices alphabet n self p = (Return s, self, advance n p)
       ∧ String.length s = n
       ∧ ∀ i, (i < n)%nat →
           String.get i s
           = String.get (urandom p (drawn p + i) mod String.length alphabet) alphabet.
Proof.
  revert p. induction n as [|n IH]; intros p.
  - exists EmptyString. rewrite advance_0. repeat split. intros i Hi. lia.
  - destruct (choice_alphabet_get self p) as (c & Hc & Hget).
    destruct (IH (advance 1 p)) as (s & Hs & Hlen & Hrest).
    exists (String c s). split; [|split].
    + cbn [join_choices].
      rewrite (bind_return _ _ _ _ _ _ _ Hc).
      rewrite (bind_return _ _ _ _ _ _ _ Hs).
      unfold ret. rewrite advance_S. reflexivity.
    + simpl. congruence.
    + intros [|i] Hi.
      * rewrite Nat.add_0_r, Hget. reflexivity.
      * cbn [String.get]. rewrite Hrest by lia.
        cbn [advance urandom drawn].
        replace (1 + drawn p + i)%nat with (drawn p + S i)%nat by lia.
        reflexivity.
Qed.

(** X4: [generate_random] is determined by the draws, one draw for each
    character: character [i] is the alphabet symbol at the index that
    draw number [drawn + i] delivers.  It consumes exactly
    [max(random_digits, 0)] draws and touches nothing else: no client is
    built, no request is sent, the store, the class and the receiver
    are unchanged. *)
Theorem generate_random_draws (self : ShortUrl) (p : Process B) :
  let r := generate_random self p in
  ∃ s, outcome r = Return s
       ∧ String.length s = Z.to_nat (random_digits (settings self))
       ∧ (∀ i, (i < String.length s)%nat →
            String.get i s
            = String.get (urandom p (drawn p + i) mod String.length alphabet) alphabet)
       ∧ receiver r = self
       ∧ drawn (process r) = (drawn p + String.length s)%nat
       ∧ urandom (process r) = urandom p
       ∧ requests (process r) = requests p
       ∧ s3 (process r) = s3 p
       ∧ class_dict (process r) = class_dict p
       ∧ clients_built (process r) = clients_built p.
Proof.
  cbv zeta.
  destruct (join_choices_get (suffix_length self) self p) as (s & Hs & Hlen & Hget).
  exists s.
  assert (Hrun : generate_random self p = (Return s, self, advance (suffix_length self) p)).
  { unfold generate_random, bind, get_settings. exact Hs. }
  rewrite Hrun. unfold outcome, receiver, process, advance. cbn.
  rewrite Hlen. unfold suffix_length in *.
  repeat split; try reflexivity.
  - exact Hget.
  - lia.
Qed.

Lemma index_in_get (c : ascii) (s : string) :
  In c (chars s) →
  String.get (index_in c s) s = Some c ∧ (index_in c s < String.length s)%nat.
Proof.
  induction s as [|x s IH]; simpl; [intros []|].
  intros Hin. destruct (Ascii.eqb_spec x c) as [->|Hne].
  - split; [reflexivity|lia].
  - destruct Hin as [Heq|Hin]; [contradiction|].
    destruct (IH Hin) as [Hget Hlt]. split; [exact Hget|lia].
Qed.

Lemma string_get_ext (s t : string) :
  String.length s = String.length t →
  (∀ i, (i < String.length s)%nat → String.get i s = String.get i t) →
  s = t.
Proof.
  revert t. induction s as [|c s IH]; intros [|d t] Hlen Hget; try discriminate.
  - reflexivity.
  - pose proof (Hget 0%nat ltac:(simpl; lia)) as H0. simpl in H0.
    injection H0 as <-. f_equal. apply IH.
    + simpl in Hlen. lia.
    + intros i Hi. apply (Hget (S i)). simpl. lia.
Qed.

Lemma get_Forall (s : string) (P : ascii → Prop) (i : nat) :
  Forall P (chars s) → (i < String.length s)%nat →
  ∃ c, String.get i s = Some c ∧ P c.
Proof.
  revert i. induction s as [|x s IH]; intros i Hall Hi; simpl in *; [lia|].
  apply Forall_cons in Hall as [Hx Hall].
  destruct i as [|i]; [eauto|]. apply IH; [exact Hall|lia].
Qed.

(** X5: no suffix is out of reach.  For every string of the configured
    length over the alphabet there is a sequence of draws on which
    [generate_random] returns that string. *)
Theorem generate_random_reaches (self : ShortUrl) (p : Process B) (s : string) :
  String.length s = Z.to_nat (random_digits (settings self)) →
  Forall (λ c, In c (chars alphabet)) (chars s) →
  ∃ draws, outcome (generate_random self (with_urandom draws p)) = Return s.
Proof.
  intros Hlen Hall.
  set (draws := λ j : nat,
         match String.get (j - drawn p) s with
         | Some c => index_in c alphabet
         | None => 0%nat
         end).
  exists draws.
  destruct (join_choices_get (suffix_length self) self (with_urandom draws p))
    as (s' & Hs' & Hlen' & Hget').
  assert (Hrun : generate_random self (with_urandom draws p)
                 = (Return s', self, advance (suffix_length self) (with_urandom draws p))).
  { unfold generate_random, bind, get_settings. exact Hs'. }
  rewrite Hrun. unfold outcome. cbn [fst]. f_equal.
  unfold suffix_length in *.
  apply string_get_ext; [congruence|].
  intros i Hi. rewrite Hget' by congruence.
  cbn [with_urandom urandom drawn]. unfold draws.
  replace (drawn p + i - drawn p)%nat with i by lia.
  destruct (get_Forall s _ i Hall) as (c & Hc & Hin); [congruence|].
  rewrite Hc. destruct (index_in_get c alphabet Hin) as [Hidx Hlt].
  rewrite Nat.mod_small by exact Hlt. exact Hidx.
Qed.

(** ** The write *)

Lemma after_client_drawn (self : ShortUrl) (p : Process B) :
  drawn (after_client self p) = drawn p ∧ urandom (after_client self p) = urandom p.
Proof.
  unfold after_client. destruct (class_dict p !! cache_name); [split; reflexivity|].
  destruct (client_refused _ _ _ _); split; reflexivity.
Qed.

(** X6: [upload_object] sends exactly one [put_object], through the
    client [self.s3_client] yields, for the configured bucket and the
    given key, with an empty body, the native URL as redirect location
    and content type text/plain.  It returns when the store accepts the
    write and raises the store's error otherwise, whatever the error (a
    403 or 404 is not swallowed here).  When no client can be had it
    raises the error of [boto3.client] and sends nothing.  It never
    draws. *)
Theorem upload_object_once (key native_url : string) (self : ShortUrl) (p : Process B) :
  let kwargs := mkUploadKwargs (bucket (settings self)) key [] native_url "text/plain" in
  let r := upload_object key native_url self p in
  (∀ c p1, s3_client self p = (Return c, self, p1) →
     let answer := put_object c kwargs (s3 p1) in
     requests (process r) = requests p ++ [PutObject c kwargs]
     ∧ s3 (process r) = answer.2
     ∧ (answer.1 = Success → outcome r = Return tt)
     ∧ (∀ e, answer.1 = Failure e → outcome r = Raise e))
  ∧ (∀ e, outcome (s3_client self p) = Raise e → r = (Raise e, self, p))
  ∧ drawn (process r) = drawn p
  ∧ receiver r = self.
Proof.
  cbv zeta. destruct (refusal self p) as [name|] eqn:Hr.
  - rewrite (s3_client_refused self p name Hr), (upload_object_refused _ _ _ _ name Hr).
    split; [intros c p1 [=]|]. split; [intros e [= <-]; reflexivity|].
    split; reflexivity.
  - rewrite (s3_client_ok self p Hr), (upload_object_eq _ _ _ _ Hr).
    unfold outcome, receiver, process, after_request, write_reply, write_request.
    cbn [fst snd requests s3 drawn].
    split; [|split; [intros e [=]|split; [apply after_client_drawn|reflexivity]]].
    intros c p1 [= <- <-]. rewrite after_client_requests, after_client_s3.
    split; [reflexivity|]. split; [reflexivity|].
    split; [intros ->; reflexivity|intros e ->; reflexivity].
Qed.

(** ** Every run of generate *)

Lemma probe_not_looping (self : ShortUrl) (p : Process B) :
  probe self p ≠ Looping.
Proof.
  rewrite probe_eq. destruct (refusal self p); [discriminate|].
  destruct (probe_reply self p).1 as [|e]; simpl; [discriminate|].
  destruct e as [code| | | |]; simpl; try discriminate.
  destruct (String.eqb code "404"); [discriminate|].
  destruct (String.eqb code "403"); discriminate.
Qed.

(** Within any bound, either every probe collides or there is a first
    one that does not. *)
Lemma first_exit (fuel : nat) (self : ShortUrl) (p : Process B) :
  colliding fuel self p
  ∨ ∃ n, (n < fuel)%nat ∧ colliding n self p ∧ probe_at n self p ≠ Return true.
Proof.
  induction fuel as [|fuel IH]; [left; intros i Hi; lia|].
  destruct IH as [Hcol|(n & Hn & Hcol & Hexit)].
  - destruct (probe_at fuel self p) as [[|]|e|] eqn:Hp.
    + left. intros i Hi. destruct (decide (i = fuel)) as [->|Hne]; [exact Hp|].
      apply Hcol. lia.
    + right. exists fuel. rewrite Hp. split; [lia|]. split; [exact Hcol|discriminate].
    + right. exists fuel. rewrite Hp. split; [lia|]. split; [exact Hcol|discriminate].
    + right. exists fuel. rewrite Hp. split; [lia|]. split; [exact Hcol|discriminate].
  - right. exists n. split; [lia|]. split; assumption.
Qed.

Lemma generate_run (fuel : nat) (native_url : string) (self : ShortUrl) (p : Process B) :
  Run fuel native_url self p.
Proof.
  destruct (first_exit fuel self p) as [Hcol|(n & Hn & Hcol & Hexit)].
  - apply RunLoops; [exact Hcol|].
    apply generate_loop_looping, while_check_looping, Hcol.
  - destruct (probe_at n self p) as [[|]|e|] eqn:Hp.
    + contradiction.
    + apply (RunWrites _ _ _ _ n); try assumption.
      apply generate_exit_eq; assumption.
    + apply (RunProbeFails _ _ _ _ n e); try assumption.
      apply generate_loop_raise, while_check_fail; assumption.
    + rewrite probe_at_eq in Hp. apply probe_not_looping in Hp. destruct Hp.
Qed.

(** A pass draws its candidate whether or not its probe is sent. *)
Lemma loop_body_drawn (self : ShortUrl) (p : Process B) :
  drawn (process (loop_body self p)) = (drawn p + suffix_length self)%nat
  ∧ urandom (process (loop_body self p)) = urandom p.
Proof.
  destruct (refusal self p) as [name|] eqn:Hr.
  - rewrite (loop_body_refused self p name Hr). unfold process, advance. cbn.
    split; [lia|reflexivity].
  - rewrite (loop_body_ok self p Hr). unfold process, after_request.
    cbn [snd drawn urandom].
    destruct (after_client_drawn self (advance (suffix_length self) p)) as [-> ->].
    unfold advance. cbn. split; [lia|reflexivity].
Qed.

Lemma passes_drawn (n : nat) (self : ShortUrl) (p : Process B) :
  drawn (passes n self p).2 = (drawn p + n * suffix_length self)%nat
  ∧ urandom (passes n self p).2 = urandom p.
Proof.
  revert p. induction n as [|n IH]; intros p; [cbn; split; [lia|reflexivity]|].
  rewrite passes_S. destruct (IH (process (loop_body self p))) as [-> ->].
  destruct (loop_body_drawn self p) as [-> ->]. split; [lia|reflexivity].
Qed.

Lemma loop_body_client (self : ShortUrl) (p : Process B) :
  refusal self p = None →
  client_in_use self (process (loop_body self p)) = client_in_use self p.
Proof. intros Hok. eapply client_in_use_hit, loop_body_cached, Hok. Qed.

Lemma probe_request_keyspace (self : ShortUrl) (p : Process B) :
  in_keyspace self (probe_request self p).
Proof.
  destruct (candidate_advance self p) as (sid & _ & Hkey & Hlen & Hall).
  split; [reflexivity|]. exists sid. cbn [probe_request key_of]. auto.
Qed.

Lemma write_request_keyspace (native_url : string) (self : ShortUrl) (p q : Process B) :
  in_keyspace self (write_request (candidate self p) native_url self q).
Proof.
  destruct (candidate_advance self p) as (sid & _ & Hkey & Hlen & Hall).
  split; [reflexivity|]. exists sid. cbn [write_request key_of Key]. auto.
Qed.

(** What any number of passes has sent: probes inside the key space. *)
Lemma passes_keyspace (n : nat) (self : ShortUrl) (p : Process B) :
  ∃ hs, requests (passes n self p).2 = requests p ++ hs
        ∧ Forall (in_keyspace self) hs.
Proof.
  revert p. induction n as [|n IH]; intros p.
  - exists []. rewrite app_nil_r. split; [reflexivity|constructor].
  - destruct (IH (process (loop_body self p))) as (hs & Hreq & Hkeys).
    rewrite passes_S, Hreq. destruct (refusal self p) as [name|] eqn:Hr.
    + exists hs. rewrite (loop_body_refused self p name Hr). split; [reflexivity|exact Hkeys].
    + exists (probe_request self p :: hs).
      rewrite loop_body_requests by exact Hr. rewrite <- app_assoc.
      split; [reflexivity|]. constructor; [apply probe_request_keyspace|exact Hkeys].
Qed.

(** The log of [n] passes whose probes have all reported something. *)
Lemma passes_log (n : nat) (self : ShortUrl) (p : Process B) :
  answered n self p →
  ∃ hs, requests (passes n self p).2 = requests p ++ hs
        ∧ length hs = n
        ∧ Forall (λ r, is_head r = true) hs
        ∧ Forall (in_keyspace self) hs
        ∧ s3 (passes n self p).2 = replay hs (s3 p)
        ∧ drawn (passes n self p).2 = (drawn p + n * suffix_length self)%nat
        ∧ urandom (passes n self p).2 = urandom p.
Proof.
  intros Hans.
  destruct (passes_trace n self p Hans) as (hs & Hreq & Hlen & Hhead & Hs3).
  destruct (passes_keyspace n self p) as (hs' & Hreq' & Hkeys).
  destruct (passes_drawn n self p) as [Hdrawn Hrand].
  assert (hs' = hs) as ->.
  { apply (app_inv_head (requests p)). rewrite <- Hreq, <- Hreq'. reflexivity. }
  exists hs. auto 10.
Qed.

Lemma passes_snoc (n : nat) (self : ShortUrl) (p : Process B) :
  refusal self (passes n self p).2 = None →
  requests (passes (S n) self p).2
  = requests (passes n self p).2 ++ [probe_request self (passes n self p).2].
Proof. intros Hok. rewrite passes_last. cbn [snd]. apply loop_body_requests, Hok. Qed.

Lemma finish_return (short_url u : string) (reply : Reply) :
  finish short_url reply = Return u → reply = Success ∧ u = short_url.
Proof. destruct reply; simpl; [|discriminate]. intros [= <-]. auto. Qed.


(** X7: a returned URL names the key that was written, and that key
    had just been reported missing.  Whenever [generate] returns, its
    last two requests are the probe of a key, answered 404 or 403 by the
    store, and the write of that same key, in the configured bucket and
    through the same client, with an empty body, the native URL as
    redirect location and content type text/plain; everything before
    is a probe, and the URL returned is the distribution host, a slash
    and that key. *)
Theorem generate_writes_probed_key (fuel : nat) (native_url short_url : string)
    (self : ShortUrl) (p : Process B) :
  outcome (generate fuel native_url self p) = Return short_url →
  ∃ c key hs,
    requests (process (generate fuel native_url self p))
    = requests p ++ hs
      ++ [HeadObject c (bucket (settings self)) key;
          PutObject c (mkUploadKwargs (bucket (settings self)) key [] native_url
                                      "text/plain")]
    ∧ Forall (λ r, is_head r = true) hs
    ∧ ((head_object c (bucket (settings self)) key (replay hs (s3 p))).1 = absent
       ∨ (head_object c (bucket (settings self)) key (replay hs (s3 p))).1 = denied)
    ∧ short_url = cloudfront_distro (settings self) +:+ "/" +:+ key.
Proof.
  intros Hret.
  destruct (generate_run fuel native_url self p)
    as [n Hn Hcol Habs Hgen|n e Hn Hcol Hraise Hgen|Hcol Hgen];
    rewrite Hgen in Hret |- *; cbv zeta in *; unfold outcome in Hret; cbn [fst] in Hret;
    try discriminate.
  apply finish_return in Hret as [_ ->].
  destruct (passes_log n self p (colliding_answered n self p Hcol))
    as (hs & Hreq & _ & Hhead & _ & Hs3 & _).
  rewrite probe_at_eq in Habs. apply probe_return in Habs as [Hok Habs].
  set (pn := (passes n self p).2) in *.
  exists (client_in_use self pn), (candidate self pn), hs.
  split; [|split; [exact Hhead|split; [|reflexivity]]].
  - unfold process, after_request, write_request. cbn [snd requests].
    rewrite after_client_requests, passes_snoc by exact Hok. fold pn. rewrite Hreq.
    rewrite passes_last. fold pn. cbn [snd]. rewrite loop_body_client by exact Hok.
    rewrite <- !app_assoc. reflexivity.
  - apply normalize_false in Habs. rewrite <- Hs3. exact Habs.
Qed.


(** The log of a whole run. *)
Lemma generate_log (fuel : nat) (native_url : string) (self : ShortUrl) (p : Process B) :
  ∃ new,
    requests (process (generate fuel native_url self p)) = requests p ++ new
    ∧ Forall (in_keyspace self) new
    ∧ urandom (process (generate fuel native_url self p)) = urandom p
    ∧ (drawn (process (generate fuel native_url self p))
       = (drawn p + length (probes new) * suffix_length self)%nat
       ∨ (∃ name,
            outcome (generate fuel native_url self p) = Raise (BotoCoreError name)
            ∧ refusal self p = Some name
            ∧ new = []
            ∧ drawn (process (generate fuel native_url self p))
              = (drawn p + suffix_length self)%nat)).
Proof.
  destruct (generate_run fuel native_url self p)
    as [n Hn Hcol Habs Hgen|n e Hn Hcol Hraise Hgen|Hcol Hgen];
    rewrite Hgen; cbv zeta; unfold process, outcome; cbn [fst snd].
  - destruct (passes_log (S n) self p (colliding_answered_S n self p false Hcol Habs))
      as (hs & Hreq & Hlen & Hhead & Hkeys & _ & Hdrawn & Hrand).
    set (p' := (passes (S n) self p).2) in *.
    set (key := candidate self (passes n self p).2).
    exists (hs ++ [write_request key native_url self p']).
    destruct (probes_heads hs Hhead) as [Hp _].
    destruct (after_client_drawn self p') as [Hd Hu].
    unfold after_request. cbn [requests drawn urandom].
    rewrite after_client_requests, Hreq, Hd, Hu, Hdrawn, Hrand, <- app_assoc.
    rewrite probes_app, Hp. cbn. rewrite app_nil_r, Hlen.
    split; [reflexivity|]. split; [|split; [reflexivity|left; reflexivity]].
    apply Forall_app. split; [exact Hkeys|].
    constructor; [apply write_request_keyspace|constructor].
  - destruct (passes_keyspace (S n) self p) as (new & Hreq & Hkeys).
    destruct (passes_drawn (S n) self p) as [Hdrawn Hrand].
    exists new. split; [exact Hreq|]. split; [exact Hkeys|]. split; [exact Hrand|].
    destruct (failing_pass n self p e (colliding_answered n self p Hcol) Hraise)
      as (hs & _ & Hlen & Hhead & _ &
          [(_ & _ & Hreq' & _)|(-> & (name & Hno & ->) & Hreq' & _)]).
    + left. rewrite Hreq' in Hreq. apply app_inv_head in Hreq. subst new.
      assert (Hall : Forall (λ r, is_head r = true)
                       (hs ++ [probe_request self (passes n self p).2])).
      { apply Forall_app. split; [exact Hhead|]. constructor; [reflexivity|constructor]. }
      destruct (probes_heads _ Hall) as [-> _].
      rewrite length_app, Hlen, Hdrawn. cbn. f_equal. lia.
    + right. exists name. rewrite Hreq' in Hreq.
      rewrite <- (app_nil_r (requests p)) in Hreq at 1.
      apply app_inv_head in Hreq. subst new. rewrite Hdrawn.
      repeat split; try assumption; try reflexivity. lia.
  - destruct (passes_log fuel self p (colliding_answered fuel self p Hcol))
      as (hs & Hreq & Hlen & Hhead & Hkeys & _ & Hdrawn & Hrand).
    exists hs. destruct (probes_heads hs Hhead) as [Hp _].
    rewrite Hp, Hlen. auto 10.
Qed.

(** X9: the random source is used by the passes alone, a candidate
    for each.  In every run of [generate], however it ends, the number
    of draws consumed is the number of probes sent times
    [max(random_digits, 0)]; the one exception is the run in which
    [boto3.client] turns the settings down, where the first candidate
    has been drawn and nothing sent.  A retry never reuses the draws of
    an earlier candidate, and the write draws nothing. *)
Theorem generate_draws (fuel : nat) (native_url : string)
    (self : ShortUrl) (p : Process B) :
  ∃ new,
    requests (process (generate fuel native_url self p)) = requests p ++ new
    ∧ urandom (process (generate fuel native_url self p)) = urandom p
    ∧ (drawn (process (generate fuel native_url self p))
       = (drawn p + length (probes new) * Z.to_nat (random_digits (settings self)))%nat
       ∨ (∃ name,
            outcome (generate fuel native_url self p) = Raise (BotoCoreError name)
            ∧ new = []
            ∧ drawn (process (generate fuel native_url self p))
              = (drawn p + Z.to_nat (random_digits (settings self)))%nat)).
Proof.
  destruct (generate_log fuel native_url self p) as (new & Hreq & _ & Hrand & Hdrawn).
  exists new. split; [exact Hreq|]. split; [exact Hrand|].
  destruct Hdrawn as [Hdrawn|(name & Hout & _ & Hnew & Hdrawn)]; [left; exact Hdrawn|].
  right. exists name. auto.
Qed.

(** X10: [generate] stays inside its key space.  Every request of
    every run, probe or write, goes to the configured bucket and names
    a key made of the configured prefix, a slash and
    [max(random_digits, 0)] characters of the alphabet. *)
Theorem generate_stays_in_keyspace (fuel : nat) (native_url : string)
    (self : ShortUrl) (p : Process B) :
  ∃ new,
    requests (process (generate fuel native_url self p)) = requests p ++ new
    ∧ Forall (λ rq,
         bucket_of rq = bucket (settings self)
         ∧ ∃ short_id,
             key_of rq = prefix (settings self) +:+ "/" +:+ short_id
             ∧ String.length short_id = Z.to_nat (random_digits (settings self))
             ∧ Forall (λ c, In c (chars alphabet)) (chars short_id)) new.
Proof.
  destruct (generate_log fuel native_url self p) as (new & Hreq & Hkeys & _).
  exists new. split; [exact Hreq|exact Hkeys].
Qed.

(** X11: with a non-positive [random_digits] the retries are of no
    use: every probe of a run, and its write, name the one key made of
    the prefix and a slash. *)
Theorem generate_single_key (fuel : nat) (native_url : string)
    (self : ShortUrl) (p : Process B) :
  (random_digits (settings self) <= 0)%Z →
  ∃ new,
    requests (process (generate fuel native_url self p)) = requests p ++ new
    ∧ Forall (λ rq, key_of rq = prefix (settings self) +:+ "/") new.
Proof.
  intros Hle.
  destruct (generate_log fuel native_url self p) as (new & Hreq & Hkeys & _).
  exists new. split; [exact Hreq|].
  eapply Forall_impl; [exact Hkeys|].
  intros rq (_ & sid & Hkey & Hlen & _).
  unfold suffix_length in Hlen.
  destruct sid; [exact Hkey|simpl in Hlen; lia].
Qed.

(** ** Against a store that remembers *)

Lemma append_inj (a x y : string) : a +:+ x = a +:+ y → x = y.
Proof. induction a as [|c a IH]; simpl; [auto|]. intros [= H]. auto. Qed.

Section Remembering.

(** [holds b bucket key]: the store [b] has an object under that key.
    What is assumed of the store: an accepted write makes the key held,
    a metadata fetch forgets nothing, and the fetch of a held key
    succeeds. *)
Variable holds : B → string → string → Prop.

Hypothesis put_holds : ∀ c kwargs b,
  (put_object c kwargs b).1 = Success →
  holds (put_object c kwargs b).2 (Bucket kwargs) (Key kwargs).

Hypothesis head_keeps : ∀ c bucket key b bucket' key',
  holds b bucket' key' → holds (head_object c bucket key b).2 bucket' key'.

Hypothesis head_finds : ∀ c bucket key b,
  holds b bucket key → (head_object c bucket key b).1 = Success.

Lemma loop_body_holds (self : ShortUrl) (p : Process B) (bucket key : string) :
  holds (s3 p) bucket key → holds (s3 (process (loop_body self p))) bucket key.
Proof.
  intros Hheld. destruct (refusal self p) as [name|] eqn:Hr.
  - rewrite (loop_body_refused self p name Hr). exact Hheld.
  - rewrite (loop_body_store self p Hr). apply head_keeps, Hheld.
Qed.

Lemma passes_holds (n : nat) (self : ShortUrl) (p : Process B) (bucket key : string) :
  holds (s3 p) bucket key → holds (s3 (passes n self p).2) bucket key.
Proof.
  revert p. induction n as [|n IH]; intros p Hheld; [exact Hheld|].
  rewrite passes_S. apply IH, loop_body_holds, Hheld.
Qed.

Lemma generate_fresh_key (fuel : nat) (native_url short_url : string)
    (self : ShortUrl) (p : Process B) :
  outcome (generate fuel native_url self p) = Return short_url →
  ∃ key,
    short_url = cloudfront_distro (settings self) +:+ "/" +:+ key
    ∧ ¬ holds (s3 p) (bucket (settings self)) key
    ∧ holds (s3 (process (generate fuel native_url self p))) (bucket (settings self)) key.
Proof.
  intros Hret.
  destruct (generate_run fuel native_url self p)
    as [n Hn Hcol Habs Hgen|n e Hn Hcol Hraise Hgen|Hcol Hgen];
    rewrite Hgen in Hret |- *; cbv zeta in *; unfold outcome in Hret; cbn [fst] in Hret;
    try discriminate.
  apply finish_return in Hret as [Hok ->].
  set (pn := (passes n self p).2) in *.
  exists (candidate self pn). split; [reflexivity|]. split.
  - intros Hheld. apply (passes_holds n self) in Hheld. fold pn in Hheld.
    rewrite probe_at_eq in Habs. fold pn in Habs.
    apply probe_return in Habs as [_ Habs].
    unfold probe_reply in Habs. rewrite (head_finds _ _ _ _ Hheld) in Habs.
    discriminate.
  - unfold process, after_request. cbn [snd s3].
    apply (put_holds _ (mkUploadKwargs (bucket (settings self)) (candidate self pn)
                                       [] native_url "text/plain")).
    exact Hok.
Qed.

(** X13: [generate] avoids the keys in use.  Against a store that
    remembers its writes, a call that returns has written a key the
    store did not hold when the call began, and holds now; the URL
    returned is the distribution host, a slash and that key. *)
Theorem generate_avoids_held_keys (fuel : nat) (native_url short_url : string)
    (self : ShortUrl) (p : Process B) :
  outcome (generate fuel native_url self p) = Return short_url →
  ∃ key,
    short_url = cloudfront_distro (settings self) +:+ "/" +:+ key
    ∧ ¬ holds (s3 p) (bucket (settings self)) key
    ∧ holds (s3 (process (generate fuel native_url self p))) (bucket (settings self)) key.
Proof. apply generate_fresh_key. Qed.

(** X14: two calls, two URLs.  Against a store that remembers its
    writes, when a call returns a URL and the next call of the same
    instance returns one too, the two URLs differ, whatever the native
    URLs and the random source. *)
Theorem generate_twice_distinct (fuel1 fuel2 : nat) (url1 url2 short1 short2 : string)
    (self : ShortUrl) (p : Process B) :
  outcome (generate fuel1 url1 self p) = Return short1 →
  outcome (generate fuel2 url2 self (process (generate fuel1 url1 self p)))
    = Return short2 →
  short1 ≠ short2.
Proof.
  intros H1 H2.
  destruct (generate_fresh_key _ _ _ _ _ H1) as (key1 & E1 & _ & Hheld).
  destruct (generate_fresh_key _ _ _ _ _ H2) as (key2 & E2 & Hfree & _).
  intros Heq. rewrite E1, E2 in Heq. do 2 apply append_inj in Heq.
  apply Hfree. rewrite <- Heq. exact Hheld.
Qed.

Lemma full_keyspace_colliding (n : nat) (self : ShortUrl) (p : Process B) :
  refusal self p = None →
  (∀ short_id,
     String.length short_id = suffix_length self →
     Forall (λ c, In c (chars alphabet)) (chars short_id) →
     holds (s3 p) (bucket (settings self)) (format_slash (prefix (settings self)) short_id)) →
  colliding n self p.
Proof.
  revert p. induction n as [|n IH]; intros p Hok Hfull; [intros i Hi; lia|].
  apply colliding_S.
  - rewrite probe_eq, Hok. unfold probe_reply.
    destruct (candidate_advance self p) as (sid & _ & -> & Hlen & Hall).
    rewrite (head_finds _ _ _ _ (Hfull sid Hlen Hall)). reflexivity.
  - apply IH; [apply loop_body_refusal, Hok|].
    intros sid Hlen Hall. apply loop_body_holds, Hfull; assumption.
Qed.

(** X15: an exhausted key space is never detected.  Against a store
    that remembers and already holds every key of the key space (with a
    non-positive [random_digits], the single key made of the prefix and
    a slash), and with a client to be had (cached, or not refused),
    [generate] never leaves its loop: within any bound it has sent that
    many probes, nothing else, and is still going round. *)
Theorem generate_full_keyspace_loops (fuel : nat) (native_url : string)
    (self : ShortUrl) (p : Process B) :
  refusal self p = None →
  (∀ short_id,
     String.length short_id = Z.to_nat (random_digits (settings self)) →
     Forall (λ c, In c (chars alphabet)) (chars short_id) →
     holds (s3 p) (bucket (settings self))
           (prefix (settings self) +:+ "/" +:+ short_id)) →
  outcome (generate fuel native_url self p) = Looping
  ∧ ∃ hs, requests (process (generate fuel native_url self p)) = requests p ++ hs
          ∧ length hs = fuel
          ∧ Forall (λ r, is_head r = true) hs.
Proof.
  intros Hok Hfull.
  pose proof (full_keyspace_colliding fuel self p Hok Hfull) as Hcol.
  rewrite (generate_loop_looping fuel native_url self p (passes fuel self p).2)
    by (apply while_check_looping, Hcol).
  split; [reflexivity|].
  destruct (passes_log fuel self p (colliding_answered fuel self p Hcol))
    as (hs & Hreq & Hlen & Hhead & _).
  exists hs. auto.
Qed.

End Remembering.

(** ** The defaults of the settings *)

(** X16: settings built without [random_digits] and without
    [boto_signature_version] use the defaults 8 and s3v4.  Every URL
    [generate] returns has [len(cloudfront_distro) + len(prefix) + 10]
    characters; and with no client cached, [s3_client] asks
    [boto3.client] for the service s3, the given region and signature
    version s3v4, returning that client when it is built and raising the
    error of [boto3.client] when these arguments are refused. *)
Theorem Settings_defaults (region_id bucket_name key_prefix distro : string)
    (fuel : nat) (native_url : string) (p : Process B) :
  let self := ShortUrl_init (Settings_init region_id bucket_name key_prefix distro None None) in
  (∀ short_url,
     outcome (generate fuel native_url self p) = Return short_url →
     String.length short_url = (String.length distro + String.length key_prefix + 10)%nat)
  ∧ (class_dict p !! cache_name = None →
     outcome (s3_client self p)
     = match client_refused "s3" region_id "s3v4" (s3 p) with
       | None => Return (mkClient "s3" region_id "s3v4")
       | Some name => Raise (BotoCoreError name)
       end).
Proof.
  cbv zeta. split.
  - intros short_url Hret.
    destruct (generate_return_shape _ _ _ _ _ Hret) as (suffix & -> & Hlen & _).
    cbn [settings ShortUrl_init Settings_init cloudfront_distro prefix].
    rewrite !length_append, Hlen. change (String.length "/") with 1%nat.
    change (suffix_length _) with 8%nat. lia.
  - intros Hnone. rewrite s3_client_eq.
    unfold outcome, client_access, refusal, client_in_use. cbn [fst].
    rewrite Hnone. cbn. destruct (client_refused _ _ _ _); reflexivity.
Qed.

End Further.

(** * The two stores *)

(** ** A store where every key is taken *)

Lemma Script_refusal (self : ShortUrl) (p : Process Script) : refusal self p = None.
Proof. unfold refusal. destruct (class_dict p !! cache_name); reflexivity. Qed.

Lemma always_exists_pass (self : ShortUrl) (p : Process Script) :
  s3 p = always_exists →
  probe self p = Return true ∧ s3 (process (loop_body self p)) = always_exists.
Proof.
  intros Hs3. rewrite probe_eq, loop_body_store, Script_refusal by apply Script_refusal.
  unfold probe_reply, probe_request, serve. simpl head_object.
  rewrite Hs3. split; reflexivity.
Qed.

Lemma always_exists_colliding (n : nat) (self : ShortUrl) (p : Process Script) :
  s3 p = always_exists → colliding n self p.
Proof.
  revert p. induction n as [|n IH]; intros p Hs3; [intros i Hi; lia|].
  destruct (always_exists_pass self p Hs3) as [Hp Hs3'].
  apply colliding_S; [exact Hp|]. apply IH. exact Hs3'.
Qed.

(** Against such a store no bound on the passes lets [generate] out:
    the loop has no maximum attempt count of its own. *)
Lemma always_exists_never_leaves (fuel : nat) (native_url : string)
    (self : ShortUrl) (p : Process Script) :
  s3 p = always_exists →
  outcome (generate fuel native_url self p) = Looping
  ∧ length (requests (process (generate fuel native_url self p)))
    = (length (requests p) + fuel)%nat.
Proof.
  intros Hs3.
  rewrite (generate_loop_looping fuel native_url self p (passes fuel self p).2)
    by (apply while_check_looping, always_exists_colliding, Hs3).
  split; [reflexivity|].
  destruct (passes_trace fuel self p) as (hs & Hreq & Hlen & _).
  { apply colliding_answered, always_exists_colliding, Hs3. }
  unfold process. cbn [snd]. rewrite Hreq, length_app, Hlen. reflexivity.
Qed.

(** ** The in-memory buckets *)

Lemma Buckets_put_holds (c : Client) (kwargs : UploadKwargs) (b : Buckets) :
  (put_object c kwargs b).1 = Success →
  Buckets_holds (put_object c kwargs b).2 (Bucket kwargs) (Key kwargs).
Proof. intros _. unfold Buckets_holds. cbn. rewrite lookup_insert_eq. eauto. Qed.

Lemma Buckets_head_keeps (c : Client) (bucket key : string) (b : Buckets)
    (bucket' key' : string) :
  Buckets_holds b bucket' key' →
  Buckets_holds (head_object c bucket key b).2 bucket' key'.
Proof. intros Hheld. cbn. destruct (objects b !! (bucket, key)); exact Hheld. Qed.

Lemma Buckets_head_finds (c : Client) (bucket key : string) (b : Buckets) :
  Buckets_holds b bucket key → (head_object c bucket key b).1 = Success.
Proof. intros [o Ho]. cbn. rewrite Ho. reflexivity. Qed.

(** * The claims on concrete runs *)

(** Two collisions, then a free key: three probes and one write. *)
Lemma generate_probes_then_writes_witness :
  ∃ hs w,
    requests (process (generate 5 sample_url test_instance
                                (start two_collisions sample_draws)))
      = requests (start two_collisions sample_draws) ++ hs ++ [w]
    ∧ Forall (λ r, is_head r = true) hs
    ∧ is_put w = true
    ∧ length (probes (hs ++ [w])) = 3%nat
    ∧ length (writes (hs ++ [w])) = 1%nat.
Proof.
  apply (generate_probes_then_writes 2 5 sample_url test_instance
           (start two_collisions sample_draws)).
  - intros i Hi. destruct i as [|[|i]]; [vm_compute; reflexivity..|lia].
  - vm_compute. reflexivity.
  - lia.
Defined.

(** The four answers of the store to a probe. *)
Lemma exists_s3_key_normalizes_witness :
  outcome (exists_s3_key "a/dkry" test_instance
             (start (mkScript [Success] absent Success) sample_draws)) = Return true
  ∧ outcome (exists_s3_key "a/dkry" test_instance
               (start (mkScript [absent] Success Success) sample_draws)) = Return false
  ∧ outcome (exists_s3_key "a/dkry" test_instance
               (start (mkScript [denied] Success Success) sample_draws)) = Return false
  ∧ outcome (exists_s3_key "a/dkry" test_instance
               (start (mkScript [server_error] Success Success) sample_draws))
    = Raise (ClientError "500")
  ∧ outcome (exists_s3_key "a/dkry" bad_instance (start empty_buckets sample_draws))
    = Raise (BotoCoreError "InvalidRegionError").
Proof.
  split; [|split; [|split; [|split]]].
  - destruct (exists_s3_key_normalizes "a/dkry" test_instance
                (start (mkScript [Success] absent Success) sample_draws))
      as (Hfetch & _).
    destruct (Hfetch _ _ eq_refl) as (Hok & _). apply Hok. reflexivity.
  - destruct (exists_s3_key_normalizes "a/dkry" test_instance
                (start (mkScript [absent] Success Success) sample_draws))
      as (Hfetch & _).
    destruct (Hfetch _ _ eq_refl) as (_ & H404 & _). apply H404. reflexivity.
  - destruct (exists_s3_key_normalizes "a/dkry" test_instance
                (start (mkScript [denied] Success Success) sample_draws))
      as (Hfetch & _).
    destruct (Hfetch _ _ eq_refl) as (_ & _ & H403 & _). apply H403. reflexivity.
  - destruct (exists_s3_key_normalizes "a/dkry" test_instance
                (start (mkScript [server_error] Success Success) sample_draws))
      as (Hfetch & _).
    destruct (Hfetch _ _ eq_refl) as (_ & _ & _ & Hother & _).
    apply Hother; [reflexivity|discriminate|discriminate].
  - destruct (exists_s3_key_normalizes "a/dkry" bad_instance
                (start empty_buckets sample_draws)) as (_ & Hrefused & _).
    apply Hrefused. reflexivity.
Defined.

(** One collision, then a server error: two probes, no write.  A region
    name that boto3 refuses: nothing is sent at all. *)
Lemma generate_propagates_probe_error_witness :
  (outcome (generate 5 sample_url test_instance (start failing_probe sample_draws))
     = Raise (ClientError "500")
   ∧ ClientError "500" ≠ ClientError "404"
   ∧ ClientError "500" ≠ ClientError "403"
   ∧ ∃ hs,
       requests (process (generate 5 sample_url test_instance
                                   (start failing_probe sample_draws)))
         = requests (start failing_probe sample_draws) ++ hs
       ∧ writes hs = []
       ∧ Forall (λ rq, is_head rq = true) hs
       ∧ s3 (process (generate 5 sample_url test_instance
                               (start failing_probe sample_draws)))
         = replay (probes hs) (s3 (start failing_probe sample_draws))
       ∧ (length hs = 2%nat
          ∨ (1%nat = 0%nat ∧ hs = [] ∧ ∃ name, ClientError "500" = BotoCoreError name)))
  ∧ outcome (generate 5 sample_url bad_instance (start empty_buckets sample_draws))
    = Raise (BotoCoreError "InvalidRegionError").
Proof.
  split.
  - apply (generate_propagates_probe_error 1 5 sample_url test_instance
             (start failing_probe sample_draws) (ClientError "500")).
    + intros i Hi. destruct i as [|i]; [vm_compute; reflexivity|lia].
    + vm_compute. reflexivity.
    + lia.
  - apply (generate_propagates_probe_error 0 5 sample_url bad_instance
             (start empty_buckets sample_draws) (BotoCoreError "InvalidRegionError")).
    + intros i Hi. lia.
    + vm_compute. reflexivity.
    + lia.
Defined.

(** With two collisions the loop is still going after two passes and
    has left after three; with a store where every key is taken it is
    still going after four. *)
Lemma generate_terminates_iff_absent_witness :
  (outcome (generate 2 sample_url test_instance (start two_collisions sample_draws))
     = Looping ↔ (2 ≤ 2)%nat)
  ∧ (outcome (generate 3 sample_url test_instance (start two_collisions sample_draws))
     = Looping ↔ (3 ≤ 2)%nat)
  ∧ generate 4 sample_url test_instance (start always_exists sample_draws)
    = (Looping, test_instance,
       (passes 4 test_instance (start always_exists sample_draws)).2).
Proof.
  destruct (generate_terminates_iff_absent sample_url test_instance
              (start two_collisions sample_draws)) as (_ & Hexit & _).
  destruct (generate_terminates_iff_absent sample_url test_instance
              (start always_exists sample_draws)) as (_ & _ & Hloop).
  assert (Hcol : colliding 2 test_instance (start two_collisions sample_draws)).
  { intros i Hi. destruct i as [|[|i]]; [vm_compute; reflexivity..|lia]. }
  assert (Habs : probe_at 2 test_instance (start two_collisions sample_draws)
                 = Return false) by (vm_compute; reflexivity).
  split; [exact (Hexit 2%nat Hcol Habs 2%nat)|].
  split; [exact (Hexit 2%nat Hcol Habs 3%nat)|].
  apply Hloop.
  intros i Hi. destruct i as [|[|[|[|i]]]]; [vm_compute; reflexivity..|lia].
Defined.

(** The run of the repository's test: fourteen characters. *)
Lemma generate_length_witness :
  ∃ suffix,
    "shor.ty/a/dkry" = cloudfront_distro (settings test_instance) +:+ "/"
                       +:+ prefix (settings test_instance) +:+ "/" +:+ suffix
    ∧ Z.of_nat (String.length suffix) = random_digits (settings test_instance)
    ∧ Z.of_nat (String.length "shor.ty/a/dkry") =
        Z.of_nat (String.length (cloudfront_distro (settings test_instance))) + 1
        + Z.of_nat (String.length (prefix (settings test_instance))) + 1
        + random_digits (settings test_instance).
Proof.
  apply (generate_length 1 sample_url "shor.ty/a/dkry" test_instance
           (start always_absent sample_draws)).
  - reflexivity.
  - vm_compute. reflexivity.
Defined.

(** C6 fails on a prefix with a slash: the host is a single segment,
    yet the returned string splits into four. *)
Lemma generate_segments_prefix_slash :
  outcome (generate 1 sample_url (ShortUrl_init slash_settings)
                    (start always_absent sample_draws))
    = Return "shor.ty/a/b/dkry"
  ∧ 0 < random_digits slash_settings
  ∧ split "/" (cloudfront_distro slash_settings) = [cloudfront_distro slash_settings]
  ∧ length (split "/" "shor.ty/a/b/dkry") ≠ 3%nat.
Proof.
  split; [vm_compute; reflexivity|].
  split; [reflexivity|].
  split; [reflexivity|].
  vm_compute. discriminate.
Defined.

Lemma generate_segments_witness :
  ∃ suffix,
    split "/" "shor.ty/a/b/dkry" =
      split "/" (cloudfront_distro slash_settings)
      ++ split "/" (prefix slash_settings) ++ [suffix]
    ∧ Z.of_nat (String.length suffix) = random_digits slash_settings
    ∧ Forall (λ c, lower_or_digit c = true) (chars suffix)
    ∧ length (split "/" "shor.ty/a/b/dkry") =
        (3 + occurrences "/" (cloudfront_distro slash_settings)
           + occurrences "/" (prefix slash_settings))%nat
    ∧ (length (split "/" "shor.ty/a/b/dkry") = 3%nat
       ↔ occurrences "/" (cloudfront_distro slash_settings) = 0%nat
         ∧ occurrences "/" (prefix slash_settings) = 0%nat).
Proof.
  apply (generate_segments 1 sample_url "shor.ty/a/b/dkry"
           (ShortUrl_init slash_settings) (start always_absent sample_draws)).
  - reflexivity.
  - vm_compute. reflexivity.
Defined.

Lemma generate_random_alphabet_witness :
  ∃ s, outcome (generate_random test_instance (start always_absent sample_draws))
       = Return s
       ∧ Z.of_nat (String.length s) = random_digits (settings test_instance)
       ∧ Forall (λ c, In c (chars alphabet)) (chars s)
       ∧ Forall (λ c, lower_or_digit c = true) (chars s)
       ∧ chars alphabet = chars ascii_lowercase ++ chars digits
       ∧ length (chars ascii_lowercase) = 26%nat
       ∧ length (chars digits) = 10%nat
       ∧ NoDup (chars alphabet).
Proof.
  apply (generate_random_alphabet test_instance (start always_absent sample_draws)).
  reflexivity.
Defined.

(** C8 fails on a plain assignment: the prefix of constructed settings
    is replaced, and the next call uses the new one. *)
Lemma Settings_field_reassigned :
  Settings_setattr (SetPrefix "z") test_settings
    = Return (Settings_init "blah-blah" "blah" "z" "shor.ty" (Some 4) None)
  ∧ prefix test_settings = "a"
  ∧ outcome (generate 1 sample_url
               (ShortUrl_init (Settings_init "blah-blah" "blah" "z" "shor.ty" (Some 4) None))
               (start always_absent sample_draws))
    = Return "shor.ty/z/dkry".
Proof.
  split; [reflexivity|]. split; [reflexivity|]. vm_compute. reflexivity.
Defined.




(** * The further properties on concrete runs *)

(** The first access has cached the client; the second finds it. *)
Lemma make_cached_property_once_witness :
  make_cached_property "s3_client" build_client true test_instance
    (after_client test_instance (start always_absent sample_draws))
  = (Return (own_client test_instance), test_instance,
     after_client test_instance (start always_absent sample_draws)).
Proof.
  apply (make_cached_property_once "s3_client" build_client true
           test_instance test_instance (start always_absent sample_draws)).
  reflexivity.
Defined.

(** A first run that fails leaves nothing cached; the second run
    builds the client. *)
Lemma make_cached_property_failure_witness :
  make_cached_property "s3_client" flaky_build true test_instance
    (start always_absent sample_draws)
  = (Raise (BotoCoreError "EndpointConnectionError"), test_instance,
     advance 1 (start always_absent sample_draws))
  ∧ outcome (make_cached_property "s3_client" flaky_build true test_instance
               (advance 1 (start always_absent sample_draws)))
    = Return (own_client test_instance).
Proof.
  destruct (make_cached_property_failure "s3_client" flaky_build true
              test_instance test_instance test_instance
              (start always_absent sample_draws)
              (advance 1 (start always_absent sample_draws))
              (advance 1 (start always_absent sample_draws))
              (BotoCoreError "EndpointConnectionError") (own_client test_instance))
    as [Hraise Hretry]; [reflexivity|reflexivity|].
  split; [exact Hraise|]. apply Hretry; reflexivity.
Defined.

(** Cached on the instance, the client is not seen by another
    instance; cached on the class, it is. *)
Lemma cached_on_instance_or_class_witness :
  lookup_attr OnInstance "_cache_s3_client" (ShortUrl_init other_settings)
    (process (cached_property "s3_client" build_client test_instance
                (start always_absent sample_draws)))
  = None
  ∧ lookup_attr OnInstance "_cache_s3_client" (ShortUrl_init other_settings)
      (process (class_cached_property "s3_client" build_client test_instance
                  (start always_absent sample_draws)))
    = Some (own_client test_instance).
Proof.
  destruct (cached_on_instance_or_class "s3_client" build_client
              test_instance test_instance (ShortUrl_init other_settings)
              (start always_absent sample_draws)
              (process (build_client test_instance (start always_absent sample_draws)))
              (own_client test_instance))
    as (_ & _ & _ & Hinstance & _ & _ & _ & Hclass); [reflexivity|reflexivity|].
  split.
  - etransitivity; [exact Hinstance|reflexivity].
  - apply Hclass. reflexivity.
Defined.

(** Some draws give the suffix zz99. *)
Lemma generate_random_reaches_witness :
  ∃ draws,
    outcome (generate_random test_instance
               (with_urandom draws (start always_absent sample_draws)))
    = Return "zz99".
Proof.
  apply (generate_random_reaches test_instance (start always_absent sample_draws) "zz99").
  - reflexivity.
  - unfold chars at 2. simpl list_ascii_of_string.
    repeat (constructor;
            [apply list_elem_of_In, (bool_decide_unpack _); vm_compute; exact I|]).
    constructor.
Defined.

(** The write is accepted by one store and refused with a 403 by
    another. *)
Lemma upload_object_once_witness :
  outcome (upload_object "a/dkry" sample_url test_instance
             (start always_absent sample_draws)) = Return tt
  ∧ outcome (upload_object "a/dkry" sample_url test_instance
               (start refusing sample_draws)) = Raise (ClientError "403")
  ∧ upload_object "a/dkry" sample_url bad_instance (start empty_buckets sample_draws)
    = (Raise (BotoCoreError "InvalidRegionError"), bad_instance,
       start empty_buckets sample_draws).
Proof.
  split; [|split].
  - destruct (upload_object_once "a/dkry" sample_url test_instance
                (start always_absent sample_draws)) as (Hsent & _).
    destruct (Hsent _ _ eq_refl) as (_ & _ & Hok & _). apply Hok. reflexivity.
  - destruct (upload_object_once "a/dkry" sample_url test_instance
                (start refusing sample_draws)) as (Hsent & _).
    destruct (Hsent _ _ eq_refl) as (_ & _ & _ & Hfail). apply Hfail. reflexivity.
  - destruct (upload_object_once "a/dkry" sample_url bad_instance
                (start empty_buckets sample_draws)) as (_ & Hrefused & _).
    apply Hrefused. reflexivity.
Defined.

(** After two collisions the key x4bi is probed, found missing, written
    and returned. *)
Lemma generate_writes_probed_key_witness :
  ∃ c key hs,
    requests (process (generate 5 sample_url test_instance
                                (start two_collisions sample_draws)))
    = requests (start two_collisions sample_draws) ++ hs
      ++ [HeadObject c (bucket (settings test_instance)) key;
          PutObject c (mkUploadKwargs (bucket (settings test_instance)) key []
                                      sample_url "text/plain")]
    ∧ Forall (λ r, is_head r = true) hs
    ∧ ((head_object c (bucket (settings test_instance)) key
          (replay hs (s3 (start two_collisions sample_draws)))).1 = absent
       ∨ (head_object c (bucket (settings test_instance)) key
            (replay hs (s3 (start two_collisions sample_draws)))).1 = denied)
    ∧ "shor.ty/a/x4bi" = cloudfront_distro (settings test_instance) +:+ "/" +:+ key.
Proof.
  apply (generate_writes_probed_key 5 sample_url "shor.ty/a/x4bi" test_instance
           (start two_collisions sample_draws)).
  vm_compute. reflexivity.
Defined.


(** With [random_digits = -3] the three probes and the write all name
    the key made of the prefix and a slash. *)
Lemma generate_single_key_witness :
  ∃ new,
    requests (process (generate 5 sample_url (ShortUrl_init empty_suffix_settings)
                                (start two_collisions sample_draws)))
    = requests (start two_collisions sample_draws) ++ new
    ∧ Forall (λ rq, key_of rq = prefix empty_suffix_settings +:+ "/") new.
Proof.
  apply (generate_single_key 5 sample_url (ShortUrl_init empty_suffix_settings)
           (start two_collisions sample_draws)).
  simpl. lia.
Defined.

(** The in-memory store: the key written was free and is now held. *)
Lemma generate_avoids_held_keys_witness :
  ∃ key,
    "shor.ty/a/dkry" = cloudfront_distro (settings test_instance) +:+ "/" +:+ key
    ∧ ¬ Buckets_holds (s3 (start empty_buckets sample_draws))
          (bucket (settings test_instance)) key
    ∧ Buckets_holds
        (s3 (process (generate 1 sample_url test_instance
                               (start empty_buckets sample_draws))))
        (bucket (settings test_instance)) key.
Proof.
  apply (generate_avoids_held_keys Buckets_holds
           Buckets_put_holds Buckets_head_keeps Buckets_head_finds
           1 sample_url "shor.ty/a/dkry" test_instance
           (start empty_buckets sample_draws)).
  vm_compute. reflexivity.
Defined.

(** The in-memory store: the second call draws the suffix of the first
    again, finds it taken, and returns another. *)
Lemma generate_twice_distinct_witness :
  "shor.ty/a/dddd" ≠ "shor.ty/a/eeee".
Proof.
  apply (generate_twice_distinct Buckets_holds
           Buckets_put_holds Buckets_head_keeps Buckets_head_finds
           1 2 sample_url sample_url "shor.ty/a/dddd" "shor.ty/a/eeee"
           test_instance (start empty_buckets stuck_then_fresh)).
  - vm_compute. reflexivity.
  - vm_compute. reflexivity.
Defined.

(** Default settings: a suffix of eight characters, a client signing
    with s3v4. *)
Lemma Settings_defaults_witness :
  String.length "shor.ty/a/dkry5cjq"
  = (String.length "shor.ty" + String.length "a" + 10)%nat
  ∧ outcome (s3_client (ShortUrl_init default_settings)
               (start always_absent sample_draws))
    = Return (mkClient "s3" "blah-blah" "s3v4").
Proof.
  destruct (Settings_defaults "blah-blah" "blah" "a" "shor.ty" 1 sample_url
              (start always_absent sample_draws)) as [Hlen Hclient].
  split.
  - apply Hlen. vm_compute. reflexivity.
  - apply Hclient. reflexivity.
Defined.

(** With one character to draw and all 36 keys taken, four passes make
    four probes and the loop goes on. *)
Lemma generate_full_keyspace_loops_witness :
  outcome (generate 4 sample_url (ShortUrl_init one_char_settings)
                    (start full_buckets sample_draws)) = Looping
  ∧ ∃ hs,
      requests (process (generate 4 sample_url (ShortUrl_init one_char_settings)
                                  (start full_buckets sample_draws)))
      = requests (start full_buckets sample_draws) ++ hs
      ∧ length hs = 4%nat
      ∧ Forall (λ r, is_head r = true) hs.
Proof.
  apply (generate_full_keyspace_loops Buckets_holds Buckets_head_keeps Buckets_head_finds
           4 sample_url (ShortUrl_init one_char_settings)
           (start full_buckets sample_draws)).
  - reflexivity.
  - intros short_id Hlen Hall.
    destruct short_id as [|c [|]]; try discriminate.
    apply Forall_cons in Hall as [Hin _]. unfold chars in Hin. simpl in Hin.
    repeat (destruct Hin as [<-|Hin]; [vm_compute; eauto|]).
    destruct Hin.
Defined.
